(** * Remote sensor for Twitter via Ethernet: a shallow embedding of the sketch

    The sketch [remote_sensor_for_twitter_via_ethernet.ino] runs on an AVR
    Arduino: [int] is 16 bits, [long] and [unsigned long] are 32 bits, all in
    two's complement.  Machine integers are values of [Z] together with the
    wrap-around of their width; texts are lists of characters; the calls into
    the board and the libraries (pins, timer, serial line, DHCP, Twitter
    client) are events of a trace, and what they return is read from an
    environment of oracles. *)

From Stdlib Require Import ZArith List Ascii String Bool Lia.
Import ListNotations.
Open Scope Z_scope.

(** ** Machine integers of the AVR target *)

Module MachineInt.

(** [unsigned long]: arithmetic modulo 2^32. *)
Definition ULONG_MOD : Z := 2 ^ 32.
Definition to_ulong (z : Z) : Z := z mod ULONG_MOD.

(** [long]: 32 bits, two's complement. *)
Definition LONG_MIN : Z := - 2 ^ 31.
Definition LONG_MAX : Z := 2 ^ 31 - 1.
Definition to_long (z : Z) : Z := (z + 2 ^ 31) mod 2 ^ 32 - 2 ^ 31.

(** [int]: 16 bits, two's complement. *)
Definition INT_MIN : Z := - 2 ^ 15.
Definition INT_MAX : Z := 2 ^ 15 - 1.
Definition to_int (z : Z) : Z := (z + 2 ^ 15) mod 2 ^ 16 - 2 ^ 15.

Definition in_ulong (z : Z) : Prop := 0 <= z < ULONG_MOD.
Definition in_long (z : Z) : Prop := LONG_MIN <= z <= LONG_MAX.
Definition in_int (z : Z) : Prop := INT_MIN <= z <= INT_MAX.

(** [a - b] and [- a] on [unsigned long] operands. *)
Definition sub_ulong (a b : Z) : Z := to_ulong (a - b).
Definition neg_ulong (a : Z) : Z := to_ulong (- a).

End MachineInt.
Import MachineInt.

(** ** Texts, decimal rendering and the [sprintf] of the C library *)

Module Text.

Definition NUL : ascii := "000"%char.
Definition text := list ascii.

Definition lit (s : string) : text := list_ascii_of_string s.

(** The character of a decimal digit and its value. *)
Definition digit_char (d : Z) : ascii := ascii_of_nat (48 + Z.to_nat d).
Definition digit_val (c : ascii) : Z := Z.of_nat (nat_of_ascii c) - 48.
Definition is_digit (c : ascii) : bool :=
  (48 <=? Z.of_nat (nat_of_ascii c)) && (Z.of_nat (nat_of_ascii c) <=? 57).

(** Digits of an unsigned value, least significant digit produced first and
    pushed in front of what is already there, until the quotient is zero (a
    do-while: zero renders as one digit).  A 32-bit value has at most ten
    digits, which is the fuel [sprintf] runs it with. *)
Fixpoint udigits (fuel : nat) (n : Z) (acc : text) : text :=
  match fuel with
  | O => acc
  | S f =>
      let acc' := digit_char (n mod 10) :: acc in
      if n / 10 =? 0 then acc' else udigits f (n / 10) acc'
  end.

Definition MAX_DIGITS : nat := 10.

(** The conversion [%d] / [%ld]: a minus sign for a negative value, then the
    digits of the magnitude. *)
Definition render_signed (z : Z) : text :=
  if z <? 0 then "-"%char :: udigits MAX_DIGITS (- z) []
  else udigits MAX_DIGITS z [].

(** Reading a decimal text back, to say what a rendering denotes. *)
Definition parse_udec (s : text) : Z :=
  fold_left (fun a c => 10 * a + digit_val c) s 0.

Definition parse_dec (s : text) : Z :=
  match s with
  | c :: r => if Ascii.eqb c "-" then - parse_udec r else parse_udec s
  | [] => 0
  end.

(** The variadic arguments of [sprintf], after the default promotions. *)
Inductive varg : Type :=
| VInt (z : Z)
| VLong (z : Z).

(** The text [sprintf] produces for a format: characters are copied up to
    the first NUL of the format; [%d] consumes an [int], [%ld] a [long],
    [%%] is a percent sign.  Another conversion, or an argument of the wrong
    kind, is outside this fragment ([None]). *)
Fixpoint format (fmt : text) (args : list varg) : option text :=
  match fmt with
  | [] => Some []
  | c :: rest =>
      if Ascii.eqb c NUL then Some []
      else if Ascii.eqb c "%" then
        match rest with
        | c1 :: rest1 =>
            if Ascii.eqb c1 "d" then
              match args with
              | VInt z :: args' =>
                  option_map (app (render_signed z)) (format rest1 args')
              | _ => None
              end
            else if Ascii.eqb c1 "%" then
              option_map (cons "%"%char) (format rest1 args)
            else if Ascii.eqb c1 "l" then
              match rest1 with
              | c2 :: rest2 =>
                  if Ascii.eqb c2 "d" then
                    match args with
                    | VLong z :: args' =>
                        option_map (app (render_signed z)) (format rest2 args')
                    | _ => None
                    end
                  else None
              | [] => None
              end
            else None
        | [] => None
        end
      else option_map (cons c) (format rest args)
  end.

(** The C string held by a character array: what precedes the first NUL. *)
Fixpoint cstr (buf : text) : text :=
  match buf with
  | [] => []
  | c :: r => if Ascii.eqb c NUL then [] else c :: cstr r
  end.

(** Writing a text and its terminating NUL at the start of an array of
    [cap] characters; the rest of the array keeps what it held.  A text
    that does not fit, with its NUL, overruns the array ([None]). *)
Definition store_cstr (cap : nat) (old : text) (s : text) : option text :=
  if (Z.of_nat (List.length s) + 1 <=? Z.of_nat cap)
  then Some (s ++ NUL :: skipn (List.length s + 1) old)
  else None.

(** Specification side of the formatter, after the words of its contract:
    the template with its placeholder replaced by a given text.  The template
    is cut at the first occurrence of the placeholder [%ld]. *)
Fixpoint subst_placeholder (template : text) (r : text) : text :=
  match template with
  | [] => []
  | c :: rest =>
      match rest with
      | c1 :: c2 :: rest2 =>
          if Ascii.eqb c "%" && Ascii.eqb c1 "l" && Ascii.eqb c2 "d"
          then r ++ rest2
          else c :: subst_placeholder rest r
      | _ => c :: subst_placeholder rest r
      end
  end.

End Text.
Import Text.

(** ** The board and the libraries: events, oracles, the store *)

Module Board.

Definition HIGH : Z := 1.
Definition LOW : Z := 0.

(** What the sketch does to its surroundings, in the order it does it.
    The values the calls returned are part of the event. *)
Inductive event : Type :=
| EvDhcpMaintain
| EvDigitalWrite (pin level : Z)
| EvDigitalRead (pin level : Z)
| EvMillis (t : Z)
| EvAnalogRead (pin v : Z)
| EvDelay (ms : Z)
| EvSerialPrint (s : text)
| EvSerialPrintln (s : text)
| EvTwitterPost (msg : text) (connected : bool)
| EvTwitterWait (status : Z).

Definition trace := list event.

(** What the surroundings answer: the n-th call of each kind gets the n-th
    value of its oracle.  The only pin the sketch reads is the button.  The
    timer is an oracle like the others: nothing ties its readings to the
    delays the sketch asks for, so what is proved of a run holds whatever
    the course of time. *)
Record Env : Type := mkEnv {
  env_button : nat -> bool;   (* the button pin is HIGH *)
  env_millis : nat -> Z;      (* the millisecond timer *)
  env_analog : nat -> Z;      (* the analog-to-digital converter *)
  env_post   : nat -> bool;   (* Twitter::post connected *)
  env_wait   : nat -> Z       (* Twitter::wait, the status code *)
}.

(** The store: the global [bounceTime], the function-local statics
    ([curSample], [curValue], the two character arrays), and how many
    answers of each oracle have been consumed. *)
Record World : Type := mkWorld {
  bounceTime : Z;
  curSample : Z;
  curValue : Z;
  twitterMsg : text;
  buf : text;
  n_button : nat;
  n_millis : nat;
  n_analog : nat;
  n_post : nat;
  n_wait : nat
}.

Definition set_bounceTime (v : Z) (w : World) : World :=
  mkWorld v (curSample w) (curValue w) (twitterMsg w) (buf w)
          (n_button w) (n_millis w) (n_analog w) (n_post w) (n_wait w).
Definition set_curSample (v : Z) (w : World) : World :=
  mkWorld (bounceTime w) v (curValue w) (twitterMsg w) (buf w)
          (n_button w) (n_millis w) (n_analog w) (n_post w) (n_wait w).
Definition set_curValue (v : Z) (w : World) : World :=
  mkWorld (bounceTime w) (curSample w) v (twitterMsg w) (buf w)
          (n_button w) (n_millis w) (n_analog w) (n_post w) (n_wait w).
Definition set_twitterMsg (v : text) (w : World) : World :=
  mkWorld (bounceTime w) (curSample w) (curValue w) v (buf w)
          (n_button w) (n_millis w) (n_analog w) (n_post w) (n_wait w).
Definition set_buf (v : text) (w : World) : World :=
  mkWorld (bounceTime w) (curSample w) (curValue w) (twitterMsg w) v
          (n_button w) (n_millis w) (n_analog w) (n_post w) (n_wait w).
Definition next_button (w : World) : World :=
  mkWorld (bounceTime w) (curSample w) (curValue w) (twitterMsg w) (buf w)
          (S (n_button w)) (n_millis w) (n_analog w) (n_post w) (n_wait w).
Definition next_millis (w : World) : World :=
  mkWorld (bounceTime w) (curSample w) (curValue w) (twitterMsg w) (buf w)
          (n_button w) (S (n_millis w)) (n_analog w) (n_post w) (n_wait w).
Definition next_analog (w : World) : World :=
  mkWorld (bounceTime w) (curSample w) (curValue w) (twitterMsg w) (buf w)
          (n_button w) (n_millis w) (S (n_analog w)) (n_post w) (n_wait w).
Definition next_post (w : World) : World :=
  mkWorld (bounceTime w) (curSample w) (curValue w) (twitterMsg w) (buf w)
          (n_button w) (n_millis w) (n_analog w) (S (n_post w)) (n_wait w).
Definition next_wait (w : World) : World :=
  mkWorld (bounceTime w) (curSample w) (curValue w) (twitterMsg w) (buf w)
          (n_button w) (n_millis w) (n_analog w) (n_post w) (S (n_wait w)).

(** Sizes of the two static character arrays. *)
Definition TWITTER_MSG_LENGTH : nat := 256.
Definition IPV4_DOTTED_LENGTH : nat := 16.

(** The store when [setup] starts: [bounceTime = 0], statics zeroed. *)
Definition boot : World :=
  mkWorld 0 0 0 (repeat NUL TWITTER_MSG_LENGTH) (repeat NUL IPV4_DOTTED_LENGTH)
          0 0 0 0 0.

(** What stops a run short of a result: undefined behaviour of the C++
    program, or a format outside the modelled fragment of [sprintf]. *)
Inductive fault : Type :=
| DivisionByZero
| BufferOverrun
| BadFormat.

Inductive Res (A : Type) : Type :=
| Ok (a : A) (w : World) (out : trace)
| Err (f : fault).
Arguments Ok {A} a w out.
Arguments Err {A} f.

(** Computations of the sketch: they read and change the store, emit
    events, and may fault. *)
Definition M (A : Type) : Type := World -> Res A.

Definition ret {A} (a : A) : M A := fun w => Ok a w [].

Definition bind {A B} (m : M A) (k : A -> M B) : M B :=
  fun w =>
    match m w with
    | Ok a w1 out1 =>
        match k a w1 with
        | Ok b w2 out2 => Ok b w2 (out1 ++ out2)
        | Err f => Err f
        end
    | Err f => Err f
    end.

Definition fail {A} (f : fault) : M A := fun _ => Err f.
Definition emit (e : event) : M unit := fun w => Ok tt w [e].
Definition get {A} (proj : World -> A) : M A := fun w => Ok (proj w) w [].
Definition modify (upd : World -> World) : M unit := fun w => Ok tt (upd w) [].

End Board.
Import Board.

Declare Scope sketch_scope.
Delimit Scope sketch_scope with sketch.
Notation "x <- m ;; k" := (bind m (fun x => k))
  (at level 61, m at next level, right associativity) : sketch_scope.
Notation "m ;; k" := (bind m (fun _ => k))
  (at level 61, right associativity) : sketch_scope.
Open Scope sketch_scope.

(** ** The sketch *)

Module Sketch.

(** Global constants of the sketch. *)
Definition buttonPin : Z := 2.
Definition sensorPin : Z := 0.
Definition ledGreenPin : Z := 4.
Definition ledRedPin : Z := 7.
Definition SAMPLES_LENGTH : Z := 30.
Definition SAMPLE_DELAY : Z := 20.
Definition BLINK_TIMES : Z := 10.
Definition LED_DELAY : Z := 30.
Definition BOUNCE_DURATION : Z := 200.
Definition debugMode : bool := true.

(** The literal ["Sensor Value: %ld.\0"]: its characters, the NUL written in
    it, and the NUL every string literal ends with. *)
Definition twitterMsgFormat : text := lit "Sensor Value: %ld." ++ [NUL; NUL].

(** The literal ["%d.%d.%d.%d\0"] of [ipV4ToDottedStyle]. *)
Definition ipV4Format : text := lit "%d.%d.%d.%d" ++ [NUL; NUL].

(** The [char *] values the sketch passes around: each is the address of
    one of the two static arrays, read through the store when used. *)
Inductive cptr : Type :=
| PtrTwitterMsg
| PtrBuf.

Definition deref (p : cptr) (w : World) : text :=
  match p with
  | PtrTwitterMsg => cstr (twitterMsg w)
  | PtrBuf => cstr (buf w)
  end.

(** Four octets read through a [const uint8_t *]. *)
Record ipv4 : Type := mkIp { ip0 : Z; ip1 : Z; ip2 : Z; ip3 : Z }.

(** [for (int i = 0; i < N; i++) body], for a body that does not use [i]:
    [N] rounds when [N] is positive, none otherwise. *)
Fixpoint repeatM (n : nat) (body : M unit) : M unit :=
  match n with
  | O => ret tt
  | S n' => body ;; repeatM n' body
  end.

Definition for_int (N : Z) (body : M unit) : M unit :=
  repeatM (Z.to_nat N) body.

Section WithEnv.

Variable E : Env.

(** *** Calls into the board and the libraries *)

Definition dhcp_maintain : M unit := emit EvDhcpMaintain.

(** [digitalWrite] takes the pin and the level as [uint8_t]; the event
    records them as the sketch passes them, which is what the core receives
    for values from 0 to 255, as all those of the sketch are. *)
Definition digitalWrite (pin level : Z) : M unit :=
  emit (EvDigitalWrite pin level).

Definition digitalRead (pin : Z) : M Z :=
  fun w =>
    let v := if env_button E (n_button w) then HIGH else LOW in
    Ok v (next_button w) [EvDigitalRead pin v].

(** [millis] returns an [unsigned long]. *)
Definition millis : M Z :=
  fun w =>
    let t := to_ulong (env_millis E (n_millis w)) in
    Ok t (next_millis w) [EvMillis t].

(** [analogRead] returns an [int]. *)
Definition analogRead (pin : Z) : M Z :=
  fun w =>
    let v := to_int (env_analog E (n_analog w)) in
    Ok v (next_analog w) [EvAnalogRead pin v].

(** [delay] takes an [unsigned long]; the event records the argument as
    the sketch passes it, which is what the core receives for a value that
    is not negative, as all those of the sketch are. *)
Definition delay (ms : Z) : M unit := emit (EvDelay ms).

Definition serial_print (s : text) : M unit := emit (EvSerialPrint s).
Definition serial_println (s : text) : M unit := emit (EvSerialPrintln s).

Definition twitter_post (msg : text) : M bool :=
  fun w =>
    let c := env_post E (n_post w) in
    Ok c (next_post w) [EvTwitterPost msg c].

(** [Twitter::wait] returns an [int]. *)
Definition twitter_wait : M Z :=
  fun w =>
    let s := to_int (env_wait E (n_wait w)) in
    Ok s (next_wait w) [EvTwitterWait s].

(** [sprintf] into a static array of [cap] characters of the store. *)
Definition sprintf (cap : nat) (arr : World -> text)
    (set_arr : text -> World -> World)
    (fmt : text) (args : list varg) : M unit :=
  match format fmt args with
  | None => fail BadFormat
  | Some s =>
      old <- get arr ;;
      match store_cstr cap old s with
      | None => fail BufferOverrun
      | Some new => modify (set_arr new)
      end
  end.

(** *** The functions of the sketch *)

Definition ipV4ToDottedStyle (ipAddr : ipv4) : M cptr :=
  sprintf IPV4_DOTTED_LENGTH buf set_buf ipV4Format
    [VInt (ip0 ipAddr); VInt (ip1 ipAddr); VInt (ip2 ipAddr); VInt (ip3 ipAddr)] ;;
  ret PtrBuf.

Definition buildTwitterMsg (sensorValue : Z) (msgFormat : text) : M cptr :=
  sprintf TWITTER_MSG_LENGTH twitterMsg set_twitterMsg msgFormat [VLong sensorValue] ;;
  ret PtrTwitterMsg.

Definition blinkLed (ledPin times time : Z) : M unit :=
  for_int times
    (digitalWrite ledPin HIGH ;;
     delay time ;;
     digitalWrite ledPin LOW ;;
     delay time).

(** One round of the sampling loop: [curSample = analogRead(pin);
    curValue += curSample; delay(time);]. *)
Definition sample_once (pin time : Z) : M unit :=
  s <- analogRead pin ;;
  modify (set_curSample s) ;;
  cv <- get curValue ;;
  cs <- get curSample ;;
  modify (set_curValue (to_long (cv + cs))) ;;
  delay time.

(** [curValue / N] divides two [long]s: the quotient is truncated toward
    zero, and a zero divisor is undefined. *)
Definition getSensorValue (pin N time : Z) : M Z :=
  modify (set_curValue 0) ;;
  for_int N (sample_once pin time) ;;
  cv <- get curValue ;;
  if N =? 0 then fail DivisionByZero
  else ret (to_long (Z.quot cv N)).

Definition debug (m : M unit) : M unit :=
  if debugMode then m else ret tt.

Definition sendTwitterMsg (msg : cptr) : M bool :=
  debug (s <- get (deref msg) ;;
         serial_println s ;;
         serial_println (lit "Try connecting to Twitter...")) ;;
  s <- get (deref msg) ;;
  connected <- twitter_post s ;;
  if connected then
    status <- twitter_wait ;;
    if status =? 200 then
      debug (serial_println (lit "Message was sent.")) ;;
      ret true
    else
      debug (serial_print (lit "Message was not sent (failed code: ") ;;
             serial_print (render_signed status) ;;
             serial_println (lit ").")) ;;
      ret false
  else
    debug (serial_println (lit "Twitter connection failed.")) ;;
    ret false.

(** [millis() - bounceTime]: [bounceTime] is a [long], converted to
    [unsigned long] for the subtraction, which is modulo 2^32. *)
Definition bounce_gap : M Z :=
  m <- millis ;;
  bt <- get bounceTime ;;
  ret (sub_ulong m (to_ulong bt)).

(** [abs(millis() - bounceTime)].  On the Arduino core [abs] is the macro
    [#define abs(x) ((x)>0?(x):-(x))]: its argument is evaluated once for
    the test and once more in the branch taken, so the timer is read twice;
    on an [unsigned long] the negation is modulo 2^32. *)
Definition abs_bounce_gap : M Z :=
  x <- bounce_gap ;;
  if x >? 0 then bounce_gap
  else (y <- bounce_gap ;; ret (neg_ulong y)).

(** The body of [loop] once the button reads HIGH and the press is
    accepted. *)
Definition cycle : M unit :=
  digitalWrite ledRedPin HIGH ;;
  v <- getSensorValue sensorPin SAMPLES_LENGTH SAMPLE_DELAY ;;
  msg <- buildTwitterMsg v twitterMsgFormat ;;
  sent <- sendTwitterMsg msg ;;
  (if sent : bool then
     digitalWrite ledRedPin LOW ;;
     blinkLed ledGreenPin BLINK_TIMES LED_DELAY
   else
     blinkLed ledRedPin BLINK_TIMES LED_DELAY) ;;
  t <- millis ;;
  modify (set_bounceTime (to_long t)).

(** The condition [abs(millis() - bounceTime) > BOUNCE_DURATION]: an
    [unsigned long] against a [long], compared as [unsigned long]s. *)
Definition debounce_gate : M bool :=
  gap <- abs_bounce_gap ;;
  ret (gap >? to_ulong BOUNCE_DURATION).

Definition loop : M unit :=
  dhcp_maintain ;;
  digitalWrite ledRedPin LOW ;;
  digitalWrite ledGreenPin LOW ;;
  b <- digitalRead buttonPin ;;
  if b =? HIGH then
    accept <- debounce_gate ;;
    if accept : bool then cycle else ret tt
  else ret tt.

(** [loop] called again and again, as the Arduino runtime does. *)
Fixpoint loops (n : nat) : M unit :=
  match n with
  | O => ret tt
  | S n' => loop ;; loops n'
  end.

End WithEnv.

End Sketch.
Import Sketch.

(** ** Reading a trace *)

Module Observe.

(** The two indicator pins: the level last written to each. *)
Record leds : Type := mkLeds { red_level : Z; green_level : Z }.

Definition dark : leds := mkLeds LOW LOW.

Definition step_pins (p : leds) (e : event) : leds :=
  match e with
  | EvDigitalWrite pin level =>
      if pin =? ledRedPin then mkLeds level (green_level p)
      else if pin =? ledGreenPin then mkLeds (red_level p) level
      else p
  | _ => p
  end.

Definition pins_after (out : trace) (p : leds) : leds :=
  fold_left step_pins out p.

Definition red_lit (p : leds) : bool := red_level p =? HIGH.
Definition green_lit (p : leds) : bool := green_level p =? HIGH.
Definition both_lit (p : leds) : bool := red_lit p && green_lit p.

(** No instant of the run has both indicators lit: checked on the pins the
    run starts with and after each of its events. *)
Fixpoint exclusive (out : trace) (p : leds) : bool :=
  negb (both_lit p) &&
  match out with
  | [] => true
  | e :: rest => exclusive rest (step_pins p e)
  end.

Definition is_pin_write (e : event) : bool :=
  match e with EvDigitalWrite _ _ => true | _ => false end.

Definition is_write (pin level : Z) (e : event) : bool :=
  match e with
  | EvDigitalWrite q l => (q =? pin) && (l =? level)
  | _ => false
  end.

Definition is_post (e : event) : bool :=
  match e with EvTwitterPost _ _ => true | _ => false end.

Definition is_sample (e : event) : bool :=
  match e with EvAnalogRead _ _ => true | _ => false end.

(** How often a pin was driven to a level. *)
Definition writes (pin level : Z) (out : trace) : nat :=
  List.length (filter (is_write pin level) out).

(** How many delivery attempts, how many sensor reads. *)
Definition posts (out : trace) : nat := List.length (filter is_post out).
Definition samples (out : trace) : nat := List.length (filter is_sample out).

(** The messages handed to the Twitter client. *)
Fixpoint posted (out : trace) : list text :=
  match out with
  | [] => []
  | EvTwitterPost msg _ :: rest => msg :: posted rest
  | _ :: rest => posted rest
  end.

(** What follows the answer of the Twitter client in a trace. *)
Fixpoint after_delivery (out : trace) : trace :=
  match out with
  | [] => []
  | EvTwitterWait _ :: rest => rest
  | _ :: rest => after_delivery rest
  end.

(** The values the analog reads of a trace returned, in order. *)
Fixpoint read_values (out : trace) : list Z :=
  match out with
  | [] => []
  | EvAnalogRead _ v :: rest => v :: read_values rest
  | _ :: rest => read_values rest
  end.

(** Elapsed time on the 32-bit millisecond timer from the reading [last] to
    the reading [now], across a wraparound of the timer. *)
Definition elapsed (now last : Z) : Z := (now - last) mod 2 ^ 32.

(** The values the analog reads of one averaging pass return. *)
Definition sample_values (E : Env) (w : World) (N : Z) : list Z :=
  map (fun i => to_int (env_analog E (n_analog w + i))) (seq 0 (Z.to_nat N)).

Definition sum (l : list Z) : Z := fold_right Z.add 0 l.

(** Two stores that agree on [bounceTime] and on what has been consumed of
    the surroundings; the function-local statics may differ. *)
Definition same_carry (w1 w2 : World) : Prop :=
  bounceTime w1 = bounceTime w2 /\
  n_button w1 = n_button w2 /\ n_millis w1 = n_millis w2 /\
  n_analog w1 = n_analog w2 /\ n_post w1 = n_post w2 /\
  n_wait w1 = n_wait w2.

End Observe.
Import Observe.

(** ** What a run of each function amounts to

    Closed forms of the store and of the trace the functions of the sketch
    leave behind, used to reason about [loop]; each is tied to the function
    it describes by a lemma below. *)

Module Summary.

(** The [k]-th next answer of the timer. *)
Definition reading (E : Env) (k : nat) (w : World) : Z :=
  to_ulong (env_millis E (k + n_millis w)).

(** One round of the sampling loop. *)
Definition sample_step (E : Env) (w : World) : World :=
  let v := to_int (env_analog E (n_analog w)) in
  mkWorld (bounceTime w) v (to_long (curValue w + v)) (twitterMsg w) (buf w)
          (n_button w) (n_millis w) (S (n_analog w)) (n_post w) (n_wait w).

Fixpoint sampled (E : Env) (k : nat) (w : World) : World :=
  match k with
  | O => w
  | S k' => sampled E k' (sample_step E w)
  end.

Fixpoint sampled_trace (E : Env) (pin time : Z) (k : nat) (w : World) : trace :=
  match k with
  | O => []
  | S k' =>
      EvAnalogRead pin (to_int (env_analog E (n_analog w)))
      :: EvDelay time :: sampled_trace E pin time k' (sample_step E w)
  end.

Fixpoint blink_trace (pin time : Z) (k : nat) : trace :=
  match k with
  | O => []
  | S k' =>
      EvDigitalWrite pin HIGH :: EvDelay time
      :: EvDigitalWrite pin LOW :: EvDelay time :: blink_trace pin time k'
  end.

(** The value of the debounce condition for the two timer readings the
    expansion of [abs] takes and the stored [bounceTime]. *)
Definition gate_value (m1 m2 bt : Z) : bool :=
  (if sub_ulong m1 (to_ulong bt) >? 0
   then sub_ulong m2 (to_ulong bt)
   else neg_ulong (sub_ulong m2 (to_ulong bt))) >? to_ulong BOUNCE_DURATION.

(** Whether the gate accepts in a store: its value on the two next
    readings of the timer. *)
Definition gate_accepts (E : Env) (w : World) : bool :=
  gate_value (reading E 0 w) (reading E 1 w) (bounceTime w).

(** The text [buildTwitterMsg] leaves in [twitterMsg] for the format of
    the sketch. *)
Definition message_of (v : Z) : text :=
  lit "Sensor Value: " ++ render_signed v ++ lit ".".

(** The events of [sendTwitterMsg] for a message and the answers of the
    client. *)
Definition send_trace (msg : text) (connected : bool) (status : Z) : trace :=
  [EvSerialPrintln msg; EvSerialPrintln (lit "Try connecting to Twitter...");
   EvTwitterPost msg connected] ++
  (if connected then
     EvTwitterWait status ::
     (if status =? 200 then [EvSerialPrintln (lit "Message was sent.")]
      else [EvSerialPrint (lit "Message was not sent (failed code: ");
            EvSerialPrint (render_signed status);
            EvSerialPrintln (lit ").")])
   else [EvSerialPrintln (lit "Twitter connection failed.")]).

(** The four octets of an address in decimal, joined by dots. *)
Definition dotted (ip : ipv4) : text :=
  render_signed (ip0 ip) ++ lit "." ++ render_signed (ip1 ip) ++ lit "." ++
  render_signed (ip2 ip) ++ lit "." ++ render_signed (ip3 ip).

Definition octet (z : Z) : Prop := 0 <= z <= 255.

(** The value [loop] hands to the formatter: the average over the
    [SAMPLES_LENGTH] next samples. *)
Definition average (E : Env) (w : World) : Z :=
  to_long (Z.quot (curValue (sampled E (Z.to_nat SAMPLES_LENGTH)
                                     (set_curValue 0 w)))
                  SAMPLES_LENGTH).

(** The events of an accepted press, from lighting the red indicator to
    the reading of the timer that is stored in [bounceTime]. *)
Definition cycle_trace (E : Env) (w : World) : trace :=
  let connected := env_post E (n_post w) in
  let status := to_int (env_wait E (n_wait w)) in
  EvDigitalWrite ledRedPin HIGH ::
  sampled_trace E sensorPin SAMPLE_DELAY (Z.to_nat SAMPLES_LENGTH)
                (set_curValue 0 w) ++
  send_trace (message_of (average E w)) connected status ++
  (if connected && (status =? 200)
   then EvDigitalWrite ledRedPin LOW ::
        blink_trace ledGreenPin LED_DELAY (Z.to_nat BLINK_TIMES)
   else blink_trace ledRedPin LED_DELAY (Z.to_nat BLINK_TIMES)) ++
  [EvMillis (reading E 0 w)].

(** The events of [loop] before the button is looked at. *)
Definition idle_trace (level : Z) : trace :=
  [EvDhcpMaintain; EvDigitalWrite ledRedPin LOW; EvDigitalWrite ledGreenPin LOW;
   EvDigitalRead buttonPin level].

End Summary.
Import Summary.

(** ** Startup: [setup] and what precedes the first [loop] *)

Module Startup.

(** Pin modes of the Arduino core. *)
Definition INPUT : Z := 0.
Definition OUTPUT : Z := 1.

(** The hardware address the sketch hands to the DHCP library. *)
Definition mac : list Z := [0xDE; 0xAD; 0xBE; 0xEF; 0xFE; 0xED].

(** What the DHCP library holds once a lease is granted: the three
    addresses its accessors point to, four bytes each. *)
Record Lease : Type := mkLease {
  lease_ip : ipv4;
  lease_gateway : ipv4;
  lease_dns : ipv4
}.

(** An address read through a [const byte *]: each element is a byte. *)
Definition to_byte (z : Z) : Z := z mod 256.
Definition bytes (a : ipv4) : ipv4 :=
  mkIp (to_byte (ip0 a)) (to_byte (ip1 a)) (to_byte (ip2 a)) (to_byte (ip3 a)).

(** The events of [setup]: those of the running sketch, and the calls only
    [setup] makes. *)
Inductive boot_event : Type :=
| BePinMode (pin mode : Z)
| BeSerialBegin (baud : Z)
| BeDhcpBegin (hw : list Z)
| BeDhcpIpAddress
| BeDhcpGatewayIpAddress
| BeDhcpDnsIpAddress
| BeSketch (e : event).

Inductive SRes (A : Type) : Type :=
| SOk (a : A) (w : World) (out : list boot_event)
| SErr (f : fault).
Arguments SOk {A} a w out.
Arguments SErr {A} f.

Definition SM (A : Type) : Type := World -> SRes A.

Definition sret {A} (a : A) : SM A := fun w => SOk a w [].

Definition sbind {A B} (m : SM A) (k : A -> SM B) : SM B :=
  fun w =>
    match m w with
    | SOk a w1 out1 =>
        match k a w1 with
        | SOk b w2 out2 => SOk b w2 (out1 ++ out2)
        | SErr f => SErr f
        end
    | SErr f => SErr f
    end.

(** A computation of the running sketch, used during startup. *)
Definition lift {A} (m : M A) : SM A :=
  fun w =>
    match m w with
    | Ok a w1 out => SOk a w1 (map BeSketch out)
    | Err f => SErr f
    end.

Definition semit (e : boot_event) : SM unit := fun w => SOk tt w [e].

Definition pinMode (pin mode : Z) : SM unit := semit (BePinMode pin mode).
Definition serial_begin (baud : Z) : SM unit := semit (BeSerialBegin baud).

(** [EthernetDHCP.begin] blocks until a lease is granted; what follows it
    is the case where it returns. *)
Definition dhcp_begin (hw : list Z) : SM unit := semit (BeDhcpBegin hw).

Definition dhcp_ipAddress (L : Lease) : SM ipv4 :=
  fun w => SOk (bytes (lease_ip L)) w [BeDhcpIpAddress].
Definition dhcp_gatewayIpAddress (L : Lease) : SM ipv4 :=
  fun w => SOk (bytes (lease_gateway L)) w [BeDhcpGatewayIpAddress].
Definition dhcp_dnsIpAddress (L : Lease) : SM ipv4 :=
  fun w => SOk (bytes (lease_dns L)) w [BeDhcpDnsIpAddress].

Definition sdebug (m : SM unit) : SM unit :=
  if debugMode then m else sret tt.

Declare Scope startup_scope.
Delimit Scope startup_scope with startup.
Notation "x <- m ;; k" := (sbind m (fun x => k))
  (at level 61, m at next level, right associativity) : startup_scope.
Notation "m ;; k" := (sbind m (fun _ => k))
  (at level 61, right associativity) : startup_scope.
Local Open Scope startup_scope.

(** [Serial.println(ipV4ToDottedStyle(addr))]: the address is rendered
    into [buf], and the line printed is what [buf] holds then. *)
Definition println_dotted (addr : ipv4) : SM unit :=
  p <- lift (ipV4ToDottedStyle addr) ;;
  s <- lift (get (deref p)) ;;
  lift (serial_println s).

Definition setup (L : Lease) : SM unit :=
  pinMode buttonPin INPUT ;;
  pinMode sensorPin INPUT ;;
  pinMode ledGreenPin OUTPUT ;;
  pinMode ledRedPin OUTPUT ;;
  sdebug (serial_begin 9600 ;;
          lift (serial_println (lit "Attempting to obtain a DHCP lease ..."))) ;;
  dhcp_begin mac ;;
  sdebug (ipAddr <- dhcp_ipAddress L ;;
          gatewayAddr <- dhcp_gatewayIpAddress L ;;
          dnsAddr <- dhcp_dnsIpAddress L ;;
          lift (serial_println (lit "A DHCP lease has been obtained.")) ;;
          lift (serial_print (lit "My IP address is: ")) ;;
          println_dotted ipAddr ;;
          lift (serial_print (lit "Gateway IP address is: ")) ;;
          println_dotted gatewayAddr ;;
          lift (serial_print (lit "DNS IP address is: ")) ;;
          println_dotted dnsAddr).

(** The sketch as the Arduino runtime runs it: [setup] once, then [loop]
    again and again. *)
Definition run (E : Env) (L : Lease) (n : nat) : SM unit :=
  setup L ;; lift (loops E n).

End Startup.
Import Startup.

(** ** Measures of a trace *)

Module Measure.

Definition CR : ascii := "013"%char.
Definition LF : ascii := "010"%char.

Definition CRLF : text := [CR; LF].

(** The characters sent on the serial line: [println] ends its text with
    carriage return and line feed. *)
Fixpoint serial_text (out : trace) : text :=
  match out with
  | [] => []
  | EvSerialPrint s :: rest => s ++ serial_text rest
  | EvSerialPrintln s :: rest => s ++ CR :: LF :: serial_text rest
  | _ :: rest => serial_text rest
  end.

(** The events of the running sketch among those of a startup trace. *)
Fixpoint sketch_events (out : list boot_event) : trace :=
  match out with
  | [] => []
  | BeSketch e :: rest => e :: sketch_events rest
  | _ :: rest => sketch_events rest
  end.

(** The milliseconds of blocking wait a trace asks for. *)
Fixpoint total_delay (out : trace) : Z :=
  match out with
  | [] => 0
  | EvDelay ms :: rest => ms + total_delay rest
  | _ :: rest => total_delay rest
  end.

Definition is_maintain (e : event) : bool :=
  match e with EvDhcpMaintain => true | _ => false end.

(** How often the DHCP lease was maintained. *)
Definition maintains (out : trace) : nat :=
  List.length (filter is_maintain out).

(** Events that use the sensor or the Twitter client. *)
Definition is_work (e : event) : bool :=
  match e with
  | EvAnalogRead _ _ | EvTwitterPost _ _ | EvTwitterWait _ => true
  | _ => false
  end.

(** Every use of the sensor or of the Twitter client happens while the red
    indicator is lit and the green one is dark. *)
Fixpoint busy_guarded (out : trace) (p : leds) : bool :=
  match out with
  | [] => true
  | e :: rest =>
      (if is_work e then red_lit p && negb (green_lit p) else true) &&
      busy_guarded rest (step_pins p e)
  end.

(** An address whose four elements are octets. *)
Definition is_octets (ip : ipv4) : Prop :=
  octet (ip0 ip) /\ octet (ip1 ip) /\ octet (ip2 ip) /\ octet (ip3 ip).

(** A character a format copies as it is. *)
Definition plain (c : ascii) : Prop := c <> NUL /\ c <> "%"%char.

End Measure.
Import Measure.

(** * Properties *)

(** ** Machine integers *)

Lemma to_ulong_range z : in_ulong (to_ulong z).
Proof. unfold in_ulong, to_ulong, ULONG_MOD. apply Z.mod_pos_bound. lia. Qed.

Lemma to_long_range z : in_long (to_long z).
Proof.
  unfold in_long, to_long, LONG_MIN, LONG_MAX.
  pose proof (Z.mod_pos_bound (z + 2 ^ 31) (2 ^ 32)). lia.
Qed.

Lemma to_int_range z : in_int (to_int z).
Proof.
  unfold in_int, to_int, INT_MIN, INT_MAX.
  pose proof (Z.mod_pos_bound (z + 2 ^ 15) (2 ^ 16)). lia.
Qed.

Lemma to_ulong_id z : in_ulong z -> to_ulong z = z.
Proof. unfold in_ulong, to_ulong. intros H. now apply Z.mod_small. Qed.

Lemma to_long_id z : in_long z -> to_long z = z.
Proof.
  unfold in_long, to_long, LONG_MIN, LONG_MAX. intros H.
  rewrite Z.mod_small; lia.
Qed.

Lemma to_int_id z : in_int z -> to_int z = z.
Proof.
  unfold in_int, to_int, INT_MIN, INT_MAX. intros H.
  rewrite Z.mod_small; lia.
Qed.

(** A timer reading stored in the [long] [bounceTime] and converted back
    for the subtraction is the reading itself. *)
Lemma to_ulong_to_long z : to_ulong (to_long z) = to_ulong z.
Proof.
  unfold to_ulong, to_long, ULONG_MOD.
  rewrite Zminus_mod_idemp_l. f_equal. lia.
Qed.

Lemma to_ulong_idem z : to_ulong (to_ulong z) = to_ulong z.
Proof. apply to_ulong_id, to_ulong_range. Qed.

(** ** Decimal rendering *)

Lemma digit_cases d : 0 <= d < 10 ->
  d = 0 \/ d = 1 \/ d = 2 \/ d = 3 \/ d = 4 \/
  d = 5 \/ d = 6 \/ d = 7 \/ d = 8 \/ d = 9.
Proof. lia. Qed.

Lemma digit_val_char d : 0 <= d < 10 -> digit_val (digit_char d) = d.
Proof.
  intros H. destruct (digit_cases d H) as [-> | [-> | [-> | [-> | [-> |
    [-> | [-> | [-> | [-> | ->]]]]]]]]]; reflexivity.
Qed.

Lemma is_digit_char d : 0 <= d < 10 -> is_digit (digit_char d) = true.
Proof.
  intros H. destruct (digit_cases d H) as [-> | [-> | [-> | [-> | [-> |
    [-> | [-> | [-> | [-> | ->]]]]]]]]]; reflexivity.
Qed.

Lemma udigits_acc fuel : forall n acc,
  udigits fuel n acc = udigits fuel n [] ++ acc.
Proof.
  induction fuel as [| f IH]; intros n acc; cbn [udigits]; [reflexivity |].
  destruct (n / 10 =? 0); [reflexivity |].
  rewrite (IH _ (_ :: acc)), (IH _ [_]), <- app_assoc. reflexivity.
Qed.

Lemma parse_udec_snoc s c :
  parse_udec (s ++ [c]) = 10 * parse_udec s + digit_val c.
Proof. unfold parse_udec. rewrite fold_left_app. reflexivity. Qed.

(** Reading the digits back gives the value, when the fuel covers it. *)
Lemma parse_udigits fuel : forall n,
  0 <= n < 10 ^ Z.of_nat fuel -> parse_udec (udigits fuel n []) = n.
Proof.
  induction fuel as [| f IH]; intros n Hn.
  - change (0 = n). change (10 ^ Z.of_nat 0) with 1 in Hn. lia.
  - cbn [udigits]. pose proof (Z.mod_pos_bound n 10 ltac:(lia)) as Hm.
    pose proof (Z.div_mod n 10 ltac:(lia)) as Hd.
    destruct (n / 10 =? 0) eqn:Hq.
    + apply Z.eqb_eq in Hq. unfold parse_udec. cbn [fold_left].
      rewrite digit_val_char by exact Hm. lia.
    + rewrite udigits_acc, parse_udec_snoc, digit_val_char by exact Hm.
      rewrite IH; [lia |].
      rewrite Nat2Z.inj_succ, Z.pow_succ_r in Hn by lia.
      split; [apply Z.div_pos; lia | apply Z.div_lt_upper_bound; lia].
Qed.

(** A value below 10^k has at most k digits, whatever the fuel. *)
Lemma udigits_length fuel : forall (k : nat) n acc,
  (1 <= k)%nat -> 0 <= n < 10 ^ Z.of_nat k ->
  (List.length (udigits fuel n acc) <= k + List.length acc)%nat.
Proof.
  induction fuel as [| f IH]; intros k n acc Hk Hn; cbn [udigits]; [lia |].
  destruct (n / 10 =? 0) eqn:Hq; [cbn [List.length]; lia |].
  apply Z.eqb_neq in Hq.
  destruct k as [| [| k']]; [lia | |].
  - exfalso. apply Hq. apply Z.div_small. cbn in Hn. lia.
  - specialize (IH (S k') (n / 10) (digit_char (n mod 10) :: acc)).
    cbn [List.length] in IH.
    assert (0 <= n / 10 < 10 ^ Z.of_nat (S k')).
    { rewrite (Nat2Z.inj_succ (S k')), Z.pow_succ_r in Hn by lia.
      split; [apply Z.div_pos; lia | apply Z.div_lt_upper_bound; lia]. }
    specialize (IH ltac:(lia) H). lia.
Qed.

(** The fuel bounds the number of digits. *)
Lemma udigits_length_fuel fuel : forall n acc,
  (List.length (udigits fuel n acc) <= fuel + List.length acc)%nat.
Proof.
  induction fuel as [| f IH]; intros n acc; cbn [udigits]; [lia |].
  destruct (n / 10 =? 0); [cbn [List.length]; lia |].
  specialize (IH (n / 10) (digit_char (n mod 10) :: acc)).
  cbn [List.length] in IH. lia.
Qed.

Lemma udigits_digits fuel : forall n acc,
  Forall (fun c => is_digit c = true) acc ->
  Forall (fun c => is_digit c = true) (udigits fuel n acc).
Proof.
  induction fuel as [| f IH]; intros n acc Hacc; cbn [udigits]; [exact Hacc |].
  assert (Forall (fun c => is_digit c = true) (digit_char (n mod 10) :: acc)).
  { constructor; [| exact Hacc].
    apply is_digit_char, Z.mod_pos_bound. lia. }
  destruct (n / 10 =? 0); [assumption | now apply IH].
Qed.

Lemma digit_not_minus c : is_digit c = true -> Ascii.eqb c "-" = false.
Proof.
  intros H. destruct (Ascii.eqb_spec c "-"%char) as [-> |]; [| reflexivity].
  discriminate H.
Qed.

Lemma digit_not_nul c : is_digit c = true -> c <> NUL.
Proof. intros H ->. discriminate H. Qed.

Lemma udigits_nonempty fuel n :
  exists c s, udigits (S fuel) n [] = c :: s /\ is_digit c = true.
Proof.
  pose proof (udigits_digits (S fuel) n [] (Forall_nil _)) as H.
  destruct (udigits (S fuel) n []) as [| c s] eqn:Hu.
  - exfalso. cbn [udigits] in Hu. destruct (n / 10 =? 0); [discriminate |].
    rewrite udigits_acc in Hu. now apply app_eq_nil in Hu.
  - exists c, s. split; [reflexivity |]. now inversion H.
Qed.

(** The rendering of a value reads back as the value: it is its decimal
    notation, with a minus sign in front when it is negative. *)
Lemma parse_render z :
  - 10 ^ 10 < z < 10 ^ 10 -> parse_dec (render_signed z) = z.
Proof.
  intros Hz. unfold render_signed, MAX_DIGITS.
  destruct (z <? 0) eqn:Hs.
  - apply Z.ltb_lt in Hs. cbn [parse_dec]. change (Ascii.eqb "-" "-") with true.
    cbn match. rewrite parse_udigits; [lia |]. change (Z.of_nat 10) with 10. lia.
  - apply Z.ltb_ge in Hs.
    destruct (udigits_nonempty 9 z) as (c & s & Hu & Hc).
    pose proof (parse_udigits 10 z) as Hp. rewrite Hu in *.
    cbn [parse_dec]. rewrite (digit_not_minus c Hc). apply Hp.
    change (Z.of_nat 10) with 10. lia.
Qed.

Lemma render_negative z :
  z < 0 -> render_signed z = "-"%char :: udigits MAX_DIGITS (- z) [].
Proof. intros H. unfold render_signed. apply Z.ltb_lt in H. now rewrite H. Qed.

Lemma render_length z : (List.length (render_signed z) <= 11)%nat.
Proof.
  unfold render_signed, MAX_DIGITS. destruct (z <? 0); cbn [List.length].
  - pose proof (udigits_length_fuel 10 (- z) []). cbn [List.length] in *. lia.
  - pose proof (udigits_length_fuel 10 z []). cbn [List.length] in *. lia.
Qed.

Lemma render_length_small (k : nat) z :
  (1 <= k)%nat -> 0 <= z < 10 ^ Z.of_nat k ->
  (List.length (render_signed z) <= k)%nat.
Proof.
  intros Hk Hz. unfold render_signed.
  destruct (z <? 0) eqn:Hs; [apply Z.ltb_lt in Hs; lia |].
  pose proof (udigits_length MAX_DIGITS k z [] Hk Hz) as H.
  cbn [List.length] in H. lia.
Qed.

Lemma render_no_nul z : Forall (fun c => c <> NUL) (render_signed z).
Proof.
  assert (forall n, Forall (fun c => c <> NUL) (udigits MAX_DIGITS n [])) as H.
  { intros n. eapply Forall_impl; [| apply udigits_digits, Forall_nil].
    intros c. apply digit_not_nul. }
  unfold render_signed. destruct (z <? 0); [| apply H].
  constructor; [discriminate | apply H].
Qed.

(** ** C strings in arrays *)

Lemma cstr_app_nul s r : cstr (s ++ NUL :: r) = cstr s.
Proof.
  induction s as [| c s IH]; cbn [cstr app].
  - reflexivity.
  - destruct (Ascii.eqb c NUL); [reflexivity | now rewrite IH].
Qed.

Lemma cstr_no_nul s : Forall (fun c => c <> NUL) s -> cstr s = s.
Proof.
  induction 1 as [| c s Hc _ IH]; cbn [cstr]; [reflexivity |].
  apply Ascii.eqb_neq in Hc. now rewrite Hc, IH.
Qed.

Lemma cstr_stored s r : Forall (fun c => c <> NUL) s -> cstr (s ++ NUL :: r) = s.
Proof. intros H. rewrite cstr_app_nul. now apply cstr_no_nul. Qed.

Lemma nth_stored s r d : nth (List.length s) (s ++ NUL :: r) d = NUL.
Proof. rewrite app_nth2, Nat.sub_diag by lia. reflexivity. Qed.

Lemma store_cstr_fits cap old s :
  (List.length s < cap)%nat ->
  store_cstr cap old s = Some (s ++ NUL :: skipn (List.length s + 1) old).
Proof.
  intros H. unfold store_cstr.
  destruct (Z.of_nat (List.length s) + 1 <=? Z.of_nat cap) eqn:Hc;
    [reflexivity | apply Z.leb_gt in Hc; lia].
Qed.

(** An array of [cap] characters still has [cap] characters after a text
    that fits was stored in it. *)
Lemma store_cstr_length cap old s new :
  List.length old = cap -> store_cstr cap old s = Some new ->
  List.length new = cap.
Proof.
  unfold store_cstr. intros Hold.
  destruct (Z.of_nat (List.length s) + 1 <=? Z.of_nat cap) eqn:Hc;
    [| discriminate].
  apply Z.leb_le in Hc. intros [= <-].
  rewrite length_app. cbn [List.length]. rewrite length_skipn. lia.
Qed.

(** ** The two formats of the sketch *)

Lemma format_twitterMsgFormat x :
  format twitterMsgFormat [VLong x] = Some (message_of x).
Proof. reflexivity. Qed.

Lemma format_ipV4Format a b c d :
  format ipV4Format [VInt a; VInt b; VInt c; VInt d] =
  Some (render_signed a ++ lit "." ++ render_signed b ++ lit "." ++
        render_signed c ++ lit "." ++ render_signed d).
Proof. cbn. now rewrite app_nil_r. Qed.

Lemma message_of_subst x :
  message_of x = subst_placeholder (cstr twitterMsgFormat) (render_signed x).
Proof. reflexivity. Qed.

Lemma message_of_length x : (List.length (message_of x) <= 26)%nat.
Proof.
  unfold message_of. rewrite !length_app. pose proof (render_length x).
  cbn [lit list_ascii_of_string List.length]. lia.
Qed.

Lemma message_of_no_nul x : Forall (fun c => c <> NUL) (message_of x).
Proof.
  unfold message_of. rewrite !Forall_app. repeat split.
  - cbn. repeat constructor; discriminate.
  - apply render_no_nul.
  - cbn. repeat constructor; discriminate.
Qed.

(** ** The message formatter *)

Lemma buildTwitterMsg_run x w :
  buildTwitterMsg x twitterMsgFormat w =
  Ok PtrTwitterMsg
     (set_twitterMsg
        (message_of x ++
         NUL :: skipn (List.length (message_of x) + 1) (twitterMsg w)) w) [].
Proof.
  unfold buildTwitterMsg, sprintf. rewrite format_twitterMsgFormat.
  unfold bind, get, modify, ret, fail.
  rewrite store_cstr_fits; [reflexivity |].
  pose proof (message_of_length x). unfold TWITTER_MSG_LENGTH. lia.
Qed.

(** C2.  For every [long] value [x], [buildTwitterMsg x twitterMsgFormat]
    returns the address of [twitterMsg], which then holds a text free of
    NUL followed by a NUL; the text is shorter than the 256 characters of
    the array, it is the template with its placeholder replaced by the
    rendering of [x], and that rendering is the decimal notation of [x],
    with a leading minus sign when [x] is negative. *)
Theorem buildTwitterMsg_formats (x : Z) (w : World) :
  in_long x ->
  exists w',
    buildTwitterMsg x twitterMsgFormat w = Ok PtrTwitterMsg w' [] /\
    deref PtrTwitterMsg w' =
      subst_placeholder (cstr twitterMsgFormat) (render_signed x) /\
    deref PtrTwitterMsg w' =
      lit "Sensor Value: " ++ render_signed x ++ lit "." /\
    parse_dec (render_signed x) = x /\
    (x < 0 -> exists ds, render_signed x = "-"%char :: ds) /\
    (List.length (deref PtrTwitterMsg w') < TWITTER_MSG_LENGTH)%nat /\
    nth (List.length (deref PtrTwitterMsg w')) (twitterMsg w') "x"%char = NUL /\
    Forall (fun c => c <> NUL) (deref PtrTwitterMsg w').
Proof.
  intros Hx. eexists. split; [apply buildTwitterMsg_run |].
  cbn [deref twitterMsg set_twitterMsg].
  rewrite (cstr_stored _ _ (message_of_no_nul x)).
  split; [apply message_of_subst |].
  split; [reflexivity |].
  repeat split.
  - apply parse_render. unfold in_long, LONG_MIN, LONG_MAX in Hx. lia.
  - intros Hneg. eexists. now apply render_negative.
  - pose proof (message_of_length x). unfold TWITTER_MSG_LENGTH. lia.
  - apply nth_stored.
  - apply message_of_no_nul.
Qed.

Lemma buildTwitterMsg_formats_witness :
  in_long (-2147483648) /\
  exists w',
    buildTwitterMsg (-2147483648) twitterMsgFormat boot = Ok PtrTwitterMsg w' [] /\
    deref PtrTwitterMsg w' = lit "Sensor Value: -2147483648.".
Proof.
  assert (in_long (-2147483648)) as H
    by (unfold in_long, LONG_MIN, LONG_MAX; lia).
  split; [exact H |].
  destruct (buildTwitterMsg_formats (-2147483648) boot H)
    as (w' & Hrun & _ & Htext & _).
  exists w'. split; [exact Hrun | exact Htext].
Defined.

(** ** The dotted-decimal rendering of an address *)

Lemma octet_length z : octet z -> (List.length (render_signed z) <= 3)%nat.
Proof.
  intros H. apply render_length_small; [lia |].
  unfold octet in H. change (10 ^ Z.of_nat 3) with 1000. lia.
Qed.

Lemma dotted_no_nul ip : Forall (fun c => c <> NUL) (dotted ip).
Proof.
  unfold dotted. rewrite !Forall_app.
  repeat split; try apply render_no_nul;
    cbn; repeat constructor; discriminate.
Qed.

(** C10.  For an address of four octets, [ipV4ToDottedStyle] returns the
    address of [buf], which then holds the four octets in decimal joined by
    dots, followed by a NUL: at most 15 characters and the NUL, within the
    16 characters of the array, whose size is unchanged. *)
Theorem ipV4ToDottedStyle_fits (ip : ipv4) (w : World) :
  octet (ip0 ip) -> octet (ip1 ip) -> octet (ip2 ip) -> octet (ip3 ip) ->
  exists w',
    ipV4ToDottedStyle ip w = Ok PtrBuf w' [] /\
    deref PtrBuf w' = dotted ip /\
    map parse_dec
      [render_signed (ip0 ip); render_signed (ip1 ip);
       render_signed (ip2 ip); render_signed (ip3 ip)] =
      [ip0 ip; ip1 ip; ip2 ip; ip3 ip] /\
    (List.length (deref PtrBuf w') <= 15)%nat /\
    nth (List.length (deref PtrBuf w')) (buf w') "x"%char = NUL /\
    (List.length (deref PtrBuf w') + 1 <= IPV4_DOTTED_LENGTH)%nat /\
    (List.length (buf w) = IPV4_DOTTED_LENGTH ->
     List.length (buf w') = IPV4_DOTTED_LENGTH).
Proof.
  intros H0 H1 H2 H3.
  assert (List.length (dotted ip) <= 15)%nat as Hlen.
  { unfold dotted. rewrite !length_app.
    pose proof (octet_length _ H0). pose proof (octet_length _ H1).
    pose proof (octet_length _ H2). pose proof (octet_length _ H3).
    cbn [lit list_ascii_of_string List.length]. lia. }
  exists (set_buf (dotted ip ++ NUL :: skipn (List.length (dotted ip) + 1) (buf w)) w).
  assert (ipV4ToDottedStyle ip w =
          Ok PtrBuf (set_buf (dotted ip ++ NUL ::
                       skipn (List.length (dotted ip) + 1) (buf w)) w) []) as Hrun.
  { unfold ipV4ToDottedStyle, sprintf. rewrite format_ipV4Format.
    fold (dotted ip). unfold bind, get, modify, ret, fail.
    rewrite store_cstr_fits; [reflexivity | unfold IPV4_DOTTED_LENGTH; lia]. }
  split; [exact Hrun |].
  cbn [deref buf set_buf]. rewrite (cstr_stored _ _ (dotted_no_nul ip)).
  split; [reflexivity |].
  repeat split.
  - cbn [map]. unfold octet in *.
    rewrite !parse_render by lia. reflexivity.
  - exact Hlen.
  - apply nth_stored.
  - unfold IPV4_DOTTED_LENGTH. lia.
  - intros Hcap. eapply store_cstr_length; [exact Hcap |].
    apply store_cstr_fits. unfold IPV4_DOTTED_LENGTH. lia.
Qed.

Lemma ipV4ToDottedStyle_fits_witness :
  exists w',
    ipV4ToDottedStyle (mkIp 255 255 255 255) boot = Ok PtrBuf w' [] /\
    deref PtrBuf w' = lit "255.255.255.255" /\
    List.length (deref PtrBuf w') = 15%nat.
Proof.
  assert (octet 255) as H by (unfold octet; lia).
  destruct (ipV4ToDottedStyle_fits (mkIp 255 255 255 255) boot H H H H)
    as (w' & Hrun & Htext & _).
  exists w'. rewrite Htext. repeat split. exact Hrun.
Defined.

(** ** The sensor sampler *)

Section Sampler.

Variable E : Env.

Lemma sample_once_run pin time w :
  sample_once E pin time w =
  Ok tt (sample_step E w)
     [EvAnalogRead pin (to_int (env_analog E (n_analog w))); EvDelay time].
Proof. reflexivity. Qed.

Lemma repeatM_sample pin time k : forall w,
  repeatM k (sample_once E pin time) w =
  Ok tt (sampled E k w) (sampled_trace E pin time k w).
Proof.
  induction k as [| k IH]; intros w; cbn [repeatM sampled sampled_trace].
  - reflexivity.
  - unfold bind. rewrite sample_once_run, IH. reflexivity.
Qed.

(** The rounds of the sampling loop touch [curSample], [curValue] and the
    position in the converter's answers, nothing else. *)
Lemma sampled_frame k : forall w,
  bounceTime (sampled E k w) = bounceTime w /\
  twitterMsg (sampled E k w) = twitterMsg w /\
  buf (sampled E k w) = buf w /\
  n_button (sampled E k w) = n_button w /\
  n_millis (sampled E k w) = n_millis w /\
  n_analog (sampled E k w) = (k + n_analog w)%nat /\
  n_post (sampled E k w) = n_post w /\
  n_wait (sampled E k w) = n_wait w.
Proof.
  induction k as [| k IH]; intros w; cbn [sampled].
  - repeat split.
  - destruct (IH (sample_step E w)) as (H1 & H2 & H3 & H4 & H5 & H6 & H7 & H8).
    rewrite H1, H2, H3, H4, H5, H6, H7, H8. cbn. repeat split. lia.
Qed.

Lemma sample_values_succ w (k : nat) :
  sample_values E w (Z.of_nat (S k)) =
  to_int (env_analog E (n_analog w)) ::
  sample_values E (sample_step E w) (Z.of_nat k).
Proof.
  unfold sample_values. rewrite !Nat2Z.id. cbn [seq map].
  rewrite Nat.add_0_r. f_equal.
  rewrite <- seq_shift, map_map. apply map_ext. intros i.
  cbn [n_analog sample_step]. do 2 f_equal. lia.
Qed.

Lemma read_values_sampled pin time k : forall w,
  read_values (sampled_trace E pin time k w) = sample_values E w (Z.of_nat k).
Proof.
  induction k as [| k IH]; intros w.
  - reflexivity.
  - rewrite sample_values_succ. cbn [sampled_trace read_values].
    now rewrite IH.
Qed.

Lemma samples_sampled pin time k : forall w,
  samples (sampled_trace E pin time k w) = k.
Proof.
  unfold samples.
  induction k as [| k IH]; intros w; cbn [sampled_trace filter is_sample List.length].
  - reflexivity.
  - now rewrite IH.
Qed.

Lemma sample_values_int k : forall w,
  Forall in_int (sample_values E w k).
Proof.
  intros w. unfold sample_values. apply Forall_map, Forall_forall.
  intros i _. apply to_int_range.
Qed.

Lemma sample_values_length w N :
  List.length (sample_values E w N) = Z.to_nat N.
Proof. unfold sample_values. now rewrite length_map, length_seq. Qed.

(** [curValue] after the rounds: the samples added one by one in [long]
    arithmetic. *)
Lemma sampled_curValue k : forall w,
  curValue (sampled E k w) =
  fold_left (fun a s => to_long (a + s)) (sample_values E w (Z.of_nat k))
            (curValue w).
Proof.
  induction k as [| k IH]; intros w.
  - reflexivity.
  - rewrite sample_values_succ. cbn [sampled fold_left]. now rewrite IH.
Qed.

End Sampler.

(** Adding [int] samples to a [long] does not leave the [long] range as
    long as there is room for the extreme values of that many samples. *)
Lemma accumulate_exact : forall (l : list Z) (cv : Z),
  Forall in_int l ->
  LONG_MIN <= cv + INT_MIN * Z.of_nat (List.length l) ->
  cv + INT_MAX * Z.of_nat (List.length l) <= LONG_MAX ->
  fold_left (fun a s => to_long (a + s)) l cv = cv + sum l.
Proof.
  induction l as [| s l IH]; intros cv Hl Hlo Hhi; cbn [fold_left sum fold_right].
  - lia.
  - inversion Hl as [| ? ? Hs Hl']; subst.
    cbn [List.length] in Hlo, Hhi. rewrite Nat2Z.inj_succ in Hlo, Hhi.
    unfold in_int, INT_MIN, INT_MAX, LONG_MIN, LONG_MAX in *.
    rewrite to_long_id by (unfold in_long, LONG_MIN, LONG_MAX; lia).
    rewrite IH; [unfold sum; lia | exact Hl' | lia | lia].
Qed.

Lemma sum_bounds : forall l : list Z,
  Forall in_int l ->
  INT_MIN * Z.of_nat (List.length l) <= sum l <= INT_MAX * Z.of_nat (List.length l).
Proof.
  induction 1 as [| s l Hs _ IH]; cbn [sum fold_right List.length].
  - lia.
  - rewrite Nat2Z.inj_succ. unfold in_int, INT_MIN, INT_MAX, sum in *. lia.
Qed.

Lemma sum_nonneg : forall l : list Z, Forall (fun v => 0 <= v) l -> 0 <= sum l.
Proof.
  induction 1 as [| s l Hs _ IH]; cbn [sum fold_right]; [lia |].
  unfold sum in IH. lia.
Qed.

(** Truncation toward zero keeps a quotient within the dividend's range. *)
Lemma quot_within a b lo hi :
  0 < b -> lo <= 0 <= hi -> lo <= a <= hi -> lo <= Z.quot a b <= hi.
Proof.
  intros Hb H0 Ha. destruct (Z_lt_le_dec a 0) as [Hneg | Hpos].
  - assert (Z.quot a b = - ((- a) / b)) as ->.
    { rewrite <- (Z.opp_involutive a) at 1.
      rewrite Z.quot_opp_l by lia. rewrite Z.quot_div_nonneg by lia. lia. }
    pose proof (Z.div_pos (- a) b ltac:(lia) Hb).
    pose proof (Z.div_le_upper_bound (- a) b (- a) Hb ltac:(nia)). lia.
  - rewrite Z.quot_div_nonneg by lia.
    pose proof (Z.div_pos a b Hpos Hb).
    pose proof (Z.div_le_upper_bound a b a Hb ltac:(nia)). lia.
Qed.

Lemma getSensorValue_run E pin N time w :
  N <> 0 ->
  getSensorValue E pin N time w =
  Ok (to_long (Z.quot (curValue (sampled E (Z.to_nat N) (set_curValue 0 w))) N))
     (sampled E (Z.to_nat N) (set_curValue 0 w))
     (sampled_trace E pin time (Z.to_nat N) (set_curValue 0 w)).
Proof.
  intros HN. unfold getSensorValue, for_int, bind, modify, get.
  rewrite repeatM_sample. apply Z.eqb_neq in HN. rewrite HN.
  cbn [ret app]. now rewrite !app_nil_r.
Qed.

Lemma getSensorValue_zero E pin time w :
  getSensorValue E pin 0 time w = Err DivisionByZero.
Proof. reflexivity. Qed.

(** The sum the sampler holds before it divides is the exact sum of the
    samples: the additions never wrap. *)
Lemma sampled_sum E N w :
  0 <= N <= INT_MAX ->
  curValue (sampled E (Z.to_nat N) (set_curValue 0 w)) =
  sum (sample_values E w N).
Proof.
  intros HN. rewrite sampled_curValue, Z2Nat.id by lia.
  change (sample_values E (set_curValue 0 w) N) with (sample_values E w N).
  cbn [curValue set_curValue].
  pose proof (sample_values_length E w N) as Hlen.
  rewrite accumulate_exact; [lia | apply sample_values_int | |];
    rewrite Hlen, Z2Nat.id by lia;
    unfold INT_MIN, INT_MAX, LONG_MIN, LONG_MAX in *; nia.
Qed.

(** C1.  For a positive sample count [N], [getSensorValue pin N time]
    reads [N] samples and returns the quotient of their sum by [N],
    truncated toward zero: the floor of the mean when the sum is not
    negative (as for the readings of the converter), minus the floor of the
    mean of the magnitude otherwise. *)
Theorem getSensorValue_average (E : Env) (pin N time : Z) (w : World) :
  1 <= N <= INT_MAX ->
  exists w' out,
    getSensorValue E pin N time w = Ok (Z.quot (sum (read_values out)) N) w' out /\
    read_values out = sample_values E w N /\
    List.length (read_values out) = Z.to_nat N /\
    (0 <= sum (read_values out) ->
     Z.quot (sum (read_values out)) N = sum (read_values out) / N) /\
    (sum (read_values out) < 0 ->
     Z.quot (sum (read_values out)) N = - ((- sum (read_values out)) / N)) /\
    (Forall (fun v => 0 <= v) (read_values out) ->
     Z.quot (sum (read_values out)) N = sum (read_values out) / N).
Proof.
  intros HN.
  exists (sampled E (Z.to_nat N) (set_curValue 0 w)),
         (sampled_trace E pin time (Z.to_nat N) (set_curValue 0 w)).
  rewrite read_values_sampled, Z2Nat.id by lia.
  change (sample_values E (set_curValue 0 w) N) with (sample_values E w N).
  set (vs := sample_values E w N).
  assert (forall S, 0 <= S -> Z.quot S N = S / N) as Hfloor
    by (intros S HS; apply Z.quot_div_nonneg; lia).
  repeat split.
  - rewrite getSensorValue_run by lia. rewrite sampled_sum by lia. fold vs.
    f_equal. apply to_long_id.
    pose proof (sum_bounds vs (sample_values_int E N w)) as Hb.
    assert (List.length vs = Z.to_nat N) as Hlen
      by apply sample_values_length.
    rewrite Hlen, Z2Nat.id in Hb by lia.
    unfold in_long.
    apply quot_within; unfold INT_MIN, INT_MAX, LONG_MIN, LONG_MAX in *; nia.
  - apply sample_values_length.
  - apply Hfloor.
  - intros Hneg. rewrite <- (Z.opp_involutive (sum vs)) at 1.
    rewrite Z.quot_opp_l by lia. rewrite Hfloor by lia. reflexivity.
  - intros Hpos. apply Hfloor, sum_nonneg, Hpos.
Qed.

Lemma getSensorValue_average_witness :
  1 <= SAMPLES_LENGTH <= INT_MAX /\
  exists w' out,
    getSensorValue (mkEnv (fun _ => false) (fun _ => 0) (fun _ => 100)
                          (fun _ => false) (fun _ => 0))
                   sensorPin SAMPLES_LENGTH SAMPLE_DELAY boot =
    Ok (Z.quot (sum (read_values out)) SAMPLES_LENGTH) w' out.
Proof.
  assert (1 <= SAMPLES_LENGTH <= INT_MAX) as H
    by (unfold SAMPLES_LENGTH, INT_MAX; lia).
  split; [exact H |].
  destruct (getSensorValue_average
              (mkEnv (fun _ => false) (fun _ => 0) (fun _ => 100)
                     (fun _ => false) (fun _ => 0))
              sensorPin SAMPLES_LENGTH SAMPLE_DELAY boot H)
    as (w' & out & Hrun & _).
  exists w', out. exact Hrun.
Defined.

(** ** The delivery client adapter *)

Lemma sendTwitterMsg_run E p w :
  sendTwitterMsg E p w =
  Ok (env_post E (n_post w) && (to_int (env_wait E (n_wait w)) =? 200))
     (if env_post E (n_post w) then next_wait (next_post w) else next_post w)
     (send_trace (deref p w) (env_post E (n_post w))
                 (to_int (env_wait E (n_wait w)))).
Proof.
  unfold sendTwitterMsg, send_trace, debug, debugMode, bind, get,
    serial_println, serial_print, twitter_post, twitter_wait, emit, ret.
  destruct p; cbn [deref twitterMsg buf next_post n_post n_wait];
    destruct (env_post E (n_post w));
    cbn [n_wait next_post andb];
    try destruct (to_int (env_wait E (n_wait w)) =? 200); reflexivity.
Qed.

(** C3.  [sendTwitterMsg] makes one post; it returns true exactly when
    the post connected and the awaited status code is 200.  A post that
    did not connect and a status code other than 200 both give false; the
    status is awaited only after a post that connected. *)
Theorem sendTwitterMsg_success (E : Env) (p : cptr) (w : World) :
  exists (sent : bool) (w' : World) (out : trace),
    sendTwitterMsg E p w = Ok sent w' out /\
    (sent = true <->
     env_post E (n_post w) = true /\ to_int (env_wait E (n_wait w)) = 200) /\
    (env_post E (n_post w) = false -> sent = false) /\
    (env_post E (n_post w) = true ->
     to_int (env_wait E (n_wait w)) <> 200 -> sent = false) /\
    posted out = [deref p w] /\
    (sent = true <->
     In (EvTwitterPost (deref p w) true) out /\ In (EvTwitterWait 200) out) /\
    (env_post E (n_post w) = false ->
     forall s, ~ In (EvTwitterWait s) out).
Proof.
  do 3 eexists. split; [apply sendTwitterMsg_run |].
  unfold send_trace.
  destruct (env_post E (n_post w)) eqn:Hc;
    [destruct (to_int (env_wait E (n_wait w)) =? 200) eqn:Hs |];
    cbn [andb app posted In].
  - apply Z.eqb_eq in Hs. rewrite Hs. intuition congruence.
  - apply Z.eqb_neq in Hs. intuition congruence.
  - intuition congruence.
Qed.

(** ** The indicator driver *)

Lemma repeatM_blink pin time k : forall w,
  repeatM k (digitalWrite pin HIGH ;; delay time ;;
             digitalWrite pin LOW ;; delay time) w =
  Ok tt w (blink_trace pin time k).
Proof.
  induction k as [| k IH]; intros w; cbn [repeatM blink_trace].
  - reflexivity.
  - unfold bind at 1. unfold bind at 1. cbn. rewrite IH. reflexivity.
Qed.

Lemma blinkLed_run pin times time w :
  blinkLed pin times time w = Ok tt w (blink_trace pin time (Z.to_nat times)).
Proof. apply repeatM_blink. Qed.

(** ** The debounce gate *)

Lemma debounce_gate_run E w :
  debounce_gate E w =
  Ok (gate_value (reading E 0 w) (reading E 1 w) (bounceTime w))
     (next_millis (next_millis w))
     [EvMillis (reading E 0 w); EvMillis (reading E 1 w)].
Proof.
  unfold debounce_gate, abs_bounce_gap, bounce_gap, gate_value, reading,
    bind, millis, get, ret.
  cbn [bounceTime next_millis n_millis Nat.add].
  destruct (sub_ulong (to_ulong (env_millis E (n_millis w)))
              (to_ulong (bounceTime w)) >? 0); reflexivity.
Qed.

(** On one reading of the timer the gate compares the elapsed time, modulo
    2^32, with the bounce duration. *)
Lemma gate_value_elapsed now bt :
  gate_value now now bt = (elapsed now (to_ulong bt) >? BOUNCE_DURATION).
Proof.
  unfold gate_value, sub_ulong, neg_ulong, elapsed, to_ulong, ULONG_MOD.
  fold (2 ^ 32).
  change (BOUNCE_DURATION mod 2 ^ 32) with BOUNCE_DURATION.
  destruct ((now - bt mod 2 ^ 32) mod 2 ^ 32 >? 0) eqn:Hpos; [reflexivity |].
  assert ((now - bt mod 2 ^ 32) mod 2 ^ 32 = 0) as ->.
  { pose proof (Z.mod_pos_bound (now - bt mod 2 ^ 32) (2 ^ 32) ltac:(lia)).
    rewrite Z.gtb_ltb in Hpos. apply Z.ltb_ge in Hpos. lia. }
  reflexivity.
Qed.

(** The elapsed time between a reading and the reading [e] milliseconds
    later is [e], also when the timer wrapped in between. *)
Lemma elapsed_later last e :
  0 <= e < 2 ^ 32 -> elapsed (to_ulong (last + e)) last = e.
Proof.
  intros He. unfold elapsed, to_ulong, ULONG_MOD.
  rewrite Zminus_mod_idemp_l.
  replace (last + e - last) with e by lia. now apply Z.mod_small.
Qed.

(** When the timer reads the same value [now] at both evaluations the
    expansion of [abs] makes, the gate compares the time elapsed since the
    stored reading, counted modulo 2^32, with [BOUNCE_DURATION]; for a
    reading taken [e] milliseconds after [last] that elapsed time is [e],
    also when the timer wrapped around in between. *)
Lemma debounce_gate_single_reading (E : Env) (w : World) (now last : Z) :
  in_ulong last ->
  bounceTime w = to_long last ->
  reading E 0 w = now ->
  reading E 1 w = now ->
  exists w' out,
    debounce_gate E w = Ok (elapsed now last >? BOUNCE_DURATION) w' out /\
    bounceTime w' = bounceTime w /\
    (forall e, 0 <= e < 2 ^ 32 -> now = to_ulong (last + e) ->
               elapsed now last = e).
Proof.
  intros Hlast Hbt H0 H1.
  exists (next_millis (next_millis w)), [EvMillis now; EvMillis now].
  split; [| split].
  - rewrite debounce_gate_run, H0, H1, gate_value_elapsed, Hbt.
    now rewrite to_ulong_to_long, (to_ulong_id last Hlast).
  - reflexivity.
  - intros e He ->. now apply elapsed_later.
Qed.

(** The value of the gate on its two readings: when the first is past the
    stored reading the second is compared with [BOUNCE_DURATION]; when the
    first equals the stored reading it is the negation, modulo 2^32, of the
    second difference that is compared. *)
Lemma gate_value_cases r0 r1 bt :
  gate_value r0 r1 bt =
  if elapsed r0 (to_ulong bt) >? 0
  then elapsed r1 (to_ulong bt) >? BOUNCE_DURATION
  else neg_ulong (elapsed r1 (to_ulong bt)) >? BOUNCE_DURATION.
Proof.
  unfold gate_value, sub_ulong, neg_ulong, elapsed, to_ulong, ULONG_MOD.
  fold (2 ^ 32).
  change (BOUNCE_DURATION mod 2 ^ 32) with BOUNCE_DURATION.
  now destruct ((r0 - bt mod 2 ^ 32) mod 2 ^ 32 >? 0).
Qed.

(** X16.  The expansion of [abs] reads the timer twice.  When the first reading
    equals the stored one and the timer ticks before the second, the gate
    negates a difference of 1 modulo 2^32 and accepts. *)
Remark debounce_gate_torn_read (E : Env) (w : World) (last : Z) :
  in_ulong last -> last + 1 < 2 ^ 32 ->
  bounceTime w = to_long last ->
  reading E 0 w = last ->
  reading E 1 w = last + 1 ->
  exists w' out, debounce_gate E w = Ok true w' out.
Proof.
  intros Hlast Hnext Hbt H0 H1. do 2 eexists.
  rewrite debounce_gate_run, H0, H1, Hbt. f_equal.
  unfold gate_value. rewrite to_ulong_to_long, (to_ulong_id last Hlast).
  unfold sub_ulong, neg_ulong, to_ulong, ULONG_MOD.
  replace (last - last) with 0 by lia.
  replace (last + 1 - last) with 1 by lia. reflexivity.
Qed.

(** ** One accepted press *)

Lemma getSensorValue_samples E w :
  getSensorValue E sensorPin SAMPLES_LENGTH SAMPLE_DELAY w =
  Ok (average E w)
     (sampled E (Z.to_nat SAMPLES_LENGTH) (set_curValue 0 w))
     (sampled_trace E sensorPin SAMPLE_DELAY (Z.to_nat SAMPLES_LENGTH)
                    (set_curValue 0 w)).
Proof. apply getSensorValue_run. discriminate. Qed.

Lemma bind_run {A B} (m : M A) (k : A -> M B) w a w1 o1 :
  m w = Ok a w1 o1 ->
  bind m k w =
  match k a w1 with
  | Ok b w2 o2 => Ok b w2 (o1 ++ o2)
  | Err f => Err f
  end.
Proof. intros H. unfold bind. now rewrite H. Qed.

Lemma cycle_run E w :
  exists w',
    cycle E w = Ok tt w' (cycle_trace E w) /\
    bounceTime w' = to_long (reading E 0 w) /\
    n_button w' = n_button w /\
    n_millis w' = S (n_millis w) /\
    n_analog w' = (Z.to_nat SAMPLES_LENGTH + n_analog w)%nat /\
    n_post w' = S (n_post w) /\
    n_wait w' = (if env_post E (n_post w) then S (n_wait w) else n_wait w).
Proof.
  unfold cycle, cycle_trace.
  pose proof (sampled_frame E (Z.to_nat SAMPLES_LENGTH) (set_curValue 0 w))
    as (_ & _ & _ & F4 & F5 & F6 & F7 & F8).
  cbn [n_button n_millis n_analog n_post n_wait set_curValue]
    in F4, F5, F6, F7, F8.
  erewrite bind_run by reflexivity.
  erewrite bind_run by apply getSensorValue_samples.
  generalize dependent (sampled E (Z.to_nat SAMPLES_LENGTH) (set_curValue 0 w)).
  generalize (sampled_trace E sensorPin SAMPLE_DELAY (Z.to_nat SAMPLES_LENGTH)
                (set_curValue 0 w)).
  generalize (average E w).
  intros v tr w1 F4 F5 F6 F7 F8.
  unfold reading. cbn [Nat.add].
  erewrite bind_run by apply buildTwitterMsg_run.
  erewrite bind_run by apply sendTwitterMsg_run.
  cbn [deref twitterMsg set_twitterMsg n_post n_wait].
  rewrite (cstr_stored _ _ (message_of_no_nul _)), F7, F8.
  generalize (message_of v ++ NUL :: skipn (List.length (message_of v) + 1)
                                          (twitterMsg w1)).
  intros stored.
  destruct (env_post E (n_post w)) eqn:Hc;
    [destruct (to_int (env_wait E (n_wait w)) =? 200) eqn:Hs |];
    cbn [andb].
  - erewrite (bind_run (_ ;; blinkLed _ _ _)).
    2:{ erewrite bind_run by reflexivity. rewrite blinkLed_run. reflexivity. }
    unfold bind, millis, modify.
    cbn [n_millis next_wait next_post set_twitterMsg]. rewrite F5.
    eexists. split.
    { cbn [app]. rewrite <- ?app_assoc. cbn [app]. reflexivity. }
    cbn [bounceTime set_bounceTime n_button n_millis n_analog n_post n_wait
         next_millis next_wait next_post set_twitterMsg].
    rewrite F4, F5, F6, F7, F8. repeat split.
  - erewrite (bind_run (blinkLed _ _ _)) by apply blinkLed_run.
    unfold bind, millis, modify.
    cbn [n_millis next_wait next_post set_twitterMsg]. rewrite F5.
    eexists. split.
    { cbn [app]. rewrite <- ?app_assoc. cbn [app]. reflexivity. }
    cbn [bounceTime set_bounceTime n_button n_millis n_analog n_post n_wait
         next_millis next_wait next_post set_twitterMsg].
    rewrite F4, F5, F6, F7, F8. repeat split.
  - erewrite (bind_run (blinkLed _ _ _)) by apply blinkLed_run.
    unfold bind, millis, modify.
    cbn [n_millis next_wait next_post set_twitterMsg]. rewrite F5.
    eexists. split.
    { cbn [app]. rewrite <- ?app_assoc. cbn [app]. reflexivity. }
    cbn [bounceTime set_bounceTime n_button n_millis n_analog n_post n_wait
         next_millis next_wait next_post set_twitterMsg].
    rewrite F4, F5, F6, F7, F8. repeat split.
Qed.

(** ** One call of [loop] *)

Section OneLoop.

Variable E : Env.

Lemma loop_idle w :
  env_button E (n_button w) = false ->
  loop E w = Ok tt (next_button w) (idle_trace LOW).
Proof.
  intros Hb. unfold loop, bind, dhcp_maintain, digitalWrite, digitalRead, emit.
  rewrite Hb. reflexivity.
Qed.

Lemma loop_pressed w :
  env_button E (n_button w) = true ->
  loop E w =
  match (accept <- debounce_gate E ;;
         if accept : bool then cycle E else ret tt) (next_button w) with
  | Ok b w2 o2 => Ok b w2 (idle_trace HIGH ++ o2)
  | Err f => Err f
  end.
Proof.
  intros Hb. unfold loop.
  do 3 erewrite bind_run by reflexivity.
  erewrite bind_run by (unfold digitalRead; rewrite Hb; reflexivity).
  change (HIGH =? HIGH) with true. cbn match.
  destruct (bind _ _ _); reflexivity.
Qed.

Lemma loop_rejected w :
  env_button E (n_button w) = true ->
  gate_accepts E w = false ->
  loop E w =
  Ok tt (next_millis (next_millis (next_button w)))
     (idle_trace HIGH ++ [EvMillis (reading E 0 w); EvMillis (reading E 1 w)]).
Proof.
  intros Hb Hg. rewrite (loop_pressed w Hb).
  erewrite bind_run by apply debounce_gate_run.
  change (gate_value _ _ _) with (gate_accepts E w). rewrite Hg. reflexivity.
Qed.

Lemma loop_accepted w :
  env_button E (n_button w) = true ->
  gate_accepts E w = true ->
  exists w',
    loop E w =
    Ok tt w'
       (idle_trace HIGH ++
        [EvMillis (reading E 0 w); EvMillis (reading E 1 w)] ++
        cycle_trace E (next_millis (next_millis (next_button w)))) /\
    bounceTime w' = to_long (reading E 2 w) /\
    n_button w' = S (n_button w) /\
    n_millis w' = (3 + n_millis w)%nat /\
    n_analog w' = (Z.to_nat SAMPLES_LENGTH + n_analog w)%nat /\
    n_post w' = S (n_post w) /\
    n_wait w' = (if env_post E (n_post w) then S (n_wait w) else n_wait w).
Proof.
  intros Hb Hg.
  destruct (cycle_run E (next_millis (next_millis (next_button w))))
    as (w' & Hrun & Hbt & Hnb & Hnm & Hna & Hnp & Hnw).
  exists w'. split; [| repeat split; assumption].
  rewrite (loop_pressed w Hb).
  erewrite bind_run by apply debounce_gate_run.
  change (gate_value _ _ _) with (gate_accepts E w). rewrite Hg, Hrun.
  reflexivity.
Qed.

(** [loop] always runs to its end. *)
Lemma loop_total w : exists w' out, loop E w = Ok tt w' out.
Proof.
  destruct (env_button E (n_button w)) eqn:Hb.
  - destruct (gate_accepts E w) eqn:Hg.
    + destruct (loop_accepted w Hb Hg) as (w' & H & _). eauto.
    + rewrite (loop_rejected w Hb Hg). eauto.
  - rewrite (loop_idle w Hb). eauto.
Qed.

End OneLoop.

Lemma loops_total E n : forall w, exists w' out, loops E n w = Ok tt w' out.
Proof.
  induction n as [| n IH]; intros w; cbn [loops].
  - unfold ret. eauto.
  - destruct (loop_total E w) as (w1 & o1 & H1).
    destruct (IH w1) as (w2 & o2 & H2).
    erewrite bind_run by exact H1. rewrite H2. eauto.
Qed.

(** C9.  The sample count the sketch averages over is 30; with it, and
    with any count other than zero, [getSensorValue] returns a value; any
    number of calls of [loop], from any store and with any surroundings,
    run to their end without dividing by zero.  Only a count of zero makes
    the division undefined. *)
Theorem getSensorValue_divides_by_nonzero :
  SAMPLES_LENGTH = 30 /\ 1 <= SAMPLES_LENGTH /\
  (forall E pin N time w, N <> 0 ->
     exists v w' out, getSensorValue E pin N time w = Ok v w' out) /\
  (forall E w,
     exists v w' out,
       getSensorValue E sensorPin SAMPLES_LENGTH SAMPLE_DELAY w = Ok v w' out) /\
  (forall E n w, exists w' out, loops E n w = Ok tt w' out) /\
  (forall E n w, loops E n w <> Err DivisionByZero) /\
  (forall E pin time w, getSensorValue E pin 0 time w = Err DivisionByZero).
Proof.
  split; [reflexivity |]. split; [unfold SAMPLES_LENGTH; lia |].
  split; [| split; [| split; [| split]]].
  - intros E pin N time w HN. rewrite getSensorValue_run by exact HN. eauto.
  - intros E w. rewrite getSensorValue_samples. eauto.
  - intros E n w. apply loops_total.
  - intros E n w. destruct (loops_total E n w) as (w' & out & H).
    rewrite H. discriminate.
  - intros. apply getSensorValue_zero.
Qed.

(** ** The indicators *)

Lemma pins_after_app out1 out2 p :
  pins_after (out1 ++ out2) p = pins_after out2 (pins_after out1 p).
Proof. unfold pins_after. apply fold_left_app. Qed.

Lemma exclusive_app out1 : forall out2 p,
  exclusive (out1 ++ out2) p =
  exclusive out1 p && exclusive out2 (pins_after out1 p).
Proof.
  induction out1 as [| e out1 IH]; intros out2 p; cbn [app exclusive].
  - cbn [pins_after fold_left].
    destruct out2; cbn [exclusive]; destruct (both_lit p); reflexivity.
  - rewrite IH. cbn [pins_after fold_left].
    now rewrite andb_assoc.
Qed.

(** Exclusion checked along a run holds at every instant of it. *)
Lemma exclusive_prefix out : forall p,
  exclusive out p = true ->
  forall pre suf, out = pre ++ suf -> both_lit (pins_after pre p) = false.
Proof.
  induction out as [| e out IH]; intros p H pre suf Heq.
  - symmetry in Heq. apply app_eq_nil in Heq as [-> _].
    cbn in *. now destruct (both_lit p).
  - cbn [exclusive] in H. apply andb_prop in H as [Hp Hrest].
    destruct pre as [| e' pre].
    + cbn. now destruct (both_lit p).
    + cbn [app] in Heq. injection Heq as <- Heq.
      cbn [pins_after fold_left]. now apply (IH _ Hrest pre suf).
Qed.

(** Events other than pin writes leave the indicators as they are. *)
Lemma quiet_pins out : forall p,
  Forall (fun e => is_pin_write e = false) out ->
  pins_after out p = p /\ exclusive out p = negb (both_lit p).
Proof.
  induction out as [| e out IH]; intros p H.
  - cbn. split; [reflexivity | apply andb_true_r].
  - inversion H as [| ? ? He Hout]; subst.
    assert (step_pins p e = p) as Hstep by (destruct e; try discriminate; reflexivity).
    cbn [pins_after fold_left exclusive]. rewrite Hstep.
    destruct (IH p Hout) as [IH1 IH2]. unfold pins_after in IH1.
    rewrite IH1, IH2. split; [reflexivity | apply andb_diag].
Qed.

Lemma sampled_trace_quiet E pin time k : forall w,
  Forall (fun e => is_pin_write e = false) (sampled_trace E pin time k w).
Proof.
  induction k as [| k IH]; intros w; cbn [sampled_trace].
  - constructor.
  - repeat constructor. apply IH.
Qed.

Lemma send_trace_quiet msg connected status :
  Forall (fun e => is_pin_write e = false) (send_trace msg connected status).
Proof.
  unfold send_trace. destruct connected; [destruct (status =? 200) |];
    repeat constructor.
Qed.

(** An accepted press, entered with both indicators dark, never has both
    lit and leaves both dark. *)
Lemma cycle_trace_exclusive E w :
  exclusive (cycle_trace E w) dark = true /\
  pins_after (cycle_trace E w) dark = dark.
Proof.
  unfold cycle_trace.
  pose proof (sampled_trace_quiet E sensorPin SAMPLE_DELAY
                (Z.to_nat SAMPLES_LENGTH) (set_curValue 0 w)) as Htr.
  pose proof (send_trace_quiet (message_of (average E w))
                (env_post E (n_post w)) (to_int (env_wait E (n_wait w)))) as Hst.
  revert Htr Hst.
  generalize (sampled_trace E sensorPin SAMPLE_DELAY
                (Z.to_nat SAMPLES_LENGTH) (set_curValue 0 w)).
  generalize (send_trace (message_of (average E w))
                (env_post E (n_post w)) (to_int (env_wait E (n_wait w)))).
  intros st tr Htr Hst.
  change (?e :: tr ++ ?rest) with ([e] ++ tr ++ rest).
  rewrite !exclusive_app, !pins_after_app.
  change (pins_after [EvDigitalWrite ledRedPin HIGH] dark) with (mkLeds HIGH LOW).
  destruct (quiet_pins tr (mkLeds HIGH LOW) Htr) as [Ht1 Ht2].
  rewrite Ht1, Ht2.
  destruct (quiet_pins st (mkLeds HIGH LOW) Hst) as [Hs1 Hs2].
  rewrite Hs1, Hs2.
  destruct (env_post E (n_post w) && (to_int (env_wait E (n_wait w)) =? 200));
    split; reflexivity.
Qed.

Section Indicators.

Variable E : Env.

Lemma idle_trace_exclusive level p :
  both_lit p = false ->
  exclusive (idle_trace level) p = true /\
  pins_after (idle_trace level) p = dark.
Proof.
  intros Hp. unfold idle_trace. cbn [exclusive pins_after fold_left step_pins].
  rewrite Hp. split; reflexivity.
Qed.

Lemma loop_exclusive w p :
  both_lit p = false ->
  exists w' out,
    loop E w = Ok tt w' out /\
    exclusive out p = true /\ pins_after out p = dark.
Proof.
  intros Hp.
  destruct (env_button E (n_button w)) eqn:Hb;
    [destruct (gate_accepts E w) eqn:Hg |].
  - destruct (loop_accepted E w Hb Hg) as (w' & Hrun & _).
    exists w'. eexists. split; [exact Hrun |].
    destruct (idle_trace_exclusive HIGH p Hp) as [Hex Hpins].
    destruct (cycle_trace_exclusive E (next_millis (next_millis (next_button w))))
      as [Hcx Hcp].
    rewrite !exclusive_app, !pins_after_app, Hex, Hpins.
    change (pins_after [EvMillis _; EvMillis _] dark) with dark.
    rewrite Hcx, Hcp. split; reflexivity.
  - rewrite (loop_rejected E w Hb Hg). do 2 eexists. split; [reflexivity |].
    destruct (idle_trace_exclusive HIGH p Hp) as [Hex Hpins].
    rewrite exclusive_app, pins_after_app, Hex, Hpins. split; reflexivity.
  - rewrite (loop_idle E w Hb). do 2 eexists. split; [reflexivity |].
    apply idle_trace_exclusive, Hp.
Qed.

Lemma loops_exclusive n : forall w p,
  both_lit p = false ->
  exists w' out,
    loops E n w = Ok tt w' out /\
    exclusive out p = true /\ both_lit (pins_after out p) = false.
Proof.
  induction n as [| n IH]; intros w p Hp; cbn [loops].
  - exists w, []. cbn. rewrite Hp. repeat split.
  - destruct (loop_exclusive w p Hp) as (w1 & o1 & H1 & Hx1 & Hp1).
    destruct (IH w1 dark eq_refl) as (w2 & o2 & H2 & Hx2 & Hp2).
    exists w2, (o1 ++ o2). erewrite bind_run by exact H1. rewrite H2.
    rewrite exclusive_app, pins_after_app, Hx1, Hp1, Hx2, Hp2.
    repeat split.
Qed.

End Indicators.

(** C6.  Over any number of calls of [loop], from any store, with any
    surroundings, started with the two indicators not both lit: at no
    instant of the run are the green and the red indicator both lit; in
    particular whenever the green indicator is switched on the red one is
    dark already. *)
Theorem indicators_exclusive (E : Env) (n : nat) (w : World) (p : leds) :
  both_lit p = false ->
  exists w' out,
    loops E n w = Ok tt w' out /\
    (forall pre suf, out = pre ++ suf -> both_lit (pins_after pre p) = false) /\
    (forall pre suf, out = pre ++ EvDigitalWrite ledGreenPin HIGH :: suf ->
                     red_lit (pins_after pre p) = false).
Proof.
  intros Hp. destruct (loops_exclusive E n w p Hp) as (w' & out & Hrun & Hx & _).
  exists w', out. split; [exact Hrun |].
  pose proof (exclusive_prefix out p Hx) as Hpre.
  split; [exact Hpre |].
  intros pre suf Heq.
  specialize (Hpre (pre ++ [EvDigitalWrite ledGreenPin HIGH]) suf).
  rewrite <- app_assoc in Hpre. specialize (Hpre Heq).
  rewrite pins_after_app in Hpre. cbn in Hpre.
  unfold both_lit, green_lit in Hpre. cbn in Hpre.
  now rewrite andb_true_r in Hpre.
Qed.

Lemma indicators_exclusive_witness :
  both_lit dark = false /\
  exists w' out,
    loops (mkEnv (fun _ => true) (fun n => 1000 * Z.of_nat n) (fun _ => 100)
                 (fun _ => true) (fun _ => 200)) 2 boot = Ok tt w' out /\
    (forall pre suf, out = pre ++ suf -> both_lit (pins_after pre dark) = false).
Proof.
  split; [reflexivity |].
  destruct (indicators_exclusive
              (mkEnv (fun _ => true) (fun n => 1000 * Z.of_nat n) (fun _ => 100)
                     (fun _ => true) (fun _ => 200)) 2 boot dark eq_refl)
    as (w' & out & Hrun & Hx & _).
  exists w', out. split; assumption.
Defined.

(** ** Counting deliveries and samples *)

Lemma posts_app o1 o2 : posts (o1 ++ o2) = (posts o1 + posts o2)%nat.
Proof. unfold posts. now rewrite filter_app, length_app. Qed.

Lemma samples_app o1 o2 : samples (o1 ++ o2) = (samples o1 + samples o2)%nat.
Proof. unfold samples. now rewrite filter_app, length_app. Qed.

Lemma posts_sampled E pin time k : forall w,
  posts (sampled_trace E pin time k w) = 0%nat.
Proof.
  unfold posts. induction k as [| k IH]; intros w; cbn; [reflexivity | apply IH].
Qed.

Lemma posts_send msg connected status :
  posts (send_trace msg connected status) = 1%nat.
Proof.
  unfold send_trace. destruct connected; [destruct (status =? 200) |];
    reflexivity.
Qed.

Lemma samples_send msg connected status :
  samples (send_trace msg connected status) = 0%nat.
Proof.
  unfold send_trace. destruct connected; [destruct (status =? 200) |];
    reflexivity.
Qed.

Lemma cycle_trace_counts E w :
  posts (cycle_trace E w) = 1%nat /\
  samples (cycle_trace E w) = Z.to_nat SAMPLES_LENGTH.
Proof.
  unfold cycle_trace.
  change (?e :: ?a ++ ?rest) with ([e] ++ a ++ rest).
  rewrite !posts_app, !samples_app, posts_sampled, posts_send,
    samples_sampled, samples_send.
  destruct (env_post E (n_post w) && (to_int (env_wait E (n_wait w)) =? 200));
    split; reflexivity.
Qed.

Section Outcome.

Variable E : Env.

(** What one call of [loop] does, by whether a press is accepted. *)
Lemma loop_outcome w :
  exists w' out,
    loop E w = Ok tt w' out /\
    if env_button E (n_button w) && gate_accepts E w
    then posts out = 1%nat /\ samples out = Z.to_nat SAMPLES_LENGTH /\
         bounceTime w' = to_long (reading E 2 w) /\
         exists pre, out = pre ++ [EvMillis (reading E 2 w)]
    else posts out = 0%nat /\ samples out = 0%nat /\
         bounceTime w' = bounceTime w /\
         filter is_pin_write out =
           [EvDigitalWrite ledRedPin LOW; EvDigitalWrite ledGreenPin LOW] /\
         curSample w' = curSample w /\ curValue w' = curValue w /\
         twitterMsg w' = twitterMsg w /\ buf w' = buf w.
Proof.
  destruct (env_button E (n_button w)) eqn:Hb;
    [destruct (gate_accepts E w) eqn:Hg |]; cbn [andb].
  - destruct (loop_accepted E w Hb Hg) as (w' & Hrun & Hbt & _).
    exists w'. eexists. split; [exact Hrun |].
    destruct (cycle_trace_counts E (next_millis (next_millis (next_button w))))
      as [Hp Hs].
    rewrite !posts_app, !samples_app, Hp, Hs.
    repeat split; try assumption.
    unfold cycle_trace. eexists.
    change (reading E 0 (next_millis (next_millis (next_button w))))
      with (reading E 2 w).
    rewrite !app_comm_cons, !app_assoc. reflexivity.
  - rewrite (loop_rejected E w Hb Hg). do 2 eexists.
    split; [reflexivity |]. repeat split.
  - rewrite (loop_idle E w Hb). do 2 eexists.
    split; [reflexivity |]. repeat split.
Qed.


End Outcome.

(** ** The bounce window *)

(** A press whose timer readings lie within the bounce window of the
    stored reading is rejected, [loop] looking at the timer and doing
    nothing more; the one case left out is the first reading equal to the
    stored one with the second past it. *)
Lemma press_within_window_rejected E w :
  env_button E (n_button w) = true ->
  elapsed (reading E 1 w) (to_ulong (bounceTime w)) <= BOUNCE_DURATION ->
  (elapsed (reading E 0 w) (to_ulong (bounceTime w)) = 0 ->
   elapsed (reading E 1 w) (to_ulong (bounceTime w)) = 0) ->
  loop E w =
  Ok tt (next_millis (next_millis (next_button w)))
     (idle_trace HIGH ++ [EvMillis (reading E 0 w); EvMillis (reading E 1 w)]).
Proof.
  intros Hb Hwin Hsame. apply (loop_rejected E w Hb).
  unfold gate_accepts. rewrite gate_value_cases.
  destruct (elapsed (reading E 0 w) (to_ulong (bounceTime w)) >? 0) eqn:Hpos.
  - rewrite Z.gtb_ltb. now apply Z.ltb_ge.
  - rewrite Z.gtb_ltb in Hpos. apply Z.ltb_ge in Hpos.
    assert (elapsed (reading E 0 w) (to_ulong (bounceTime w)) = 0) as H0.
    { unfold elapsed in *.
      pose proof (Z.mod_pos_bound (reading E 0 w - to_ulong (bounceTime w))
                    (2 ^ 32) ltac:(lia)). lia. }
    rewrite (Hsame H0). reflexivity.
Qed.

(** C5.  The gate accepts a press although the elapsed time does not
    exceed [BOUNCE_DURATION].  With 2300 stored in [bounceTime] and the
    timer reading 2300 at the first evaluation the expansion of [abs]
    makes of its argument and 2301 at the second, one millisecond has
    elapsed; the first difference is 0, so the negated branch is taken,
    the negation of 1 modulo 2^32 exceeds 200, and the gate accepts:
    [loop] samples thirty times and posts. *)
Theorem debounce_gate_accepts_after_one_ms :
  let E := mkEnv (fun _ => true) (fun n => nth n [2300; 2301; 3600] 0)
                 (fun _ => 512) (fun _ => true) (fun _ => 200) in
  let w := set_bounceTime (to_long 2300) boot in
  reading E 0 w = 2300 /\ reading E 1 w = 2301 /\
  to_ulong (bounceTime w) = 2300 /\
  elapsed 2301 2300 = 1 /\ 1 <= BOUNCE_DURATION /\
  neg_ulong (elapsed 2301 2300) = 4294967295 /\
  debounce_gate E w =
    Ok true (next_millis (next_millis w)) [EvMillis 2300; EvMillis 2301] /\
  exists w' out,
    loop E w = Ok tt w' out /\ posts out = 1%nat /\ samples out = 30%nat.
Proof.
  intros E w.
  split; [reflexivity |]. split; [reflexivity |]. split; [reflexivity |].
  split; [reflexivity |]. split; [unfold BOUNCE_DURATION; lia |].
  split; [reflexivity |].
  split; [rewrite debounce_gate_run; reflexivity |].
  destruct (loop_outcome E w) as (w' & out & Hrun & Hcase).
  assert (env_button E (n_button w) && gate_accepts E w = true) as Hacc
    by reflexivity.
  rewrite Hacc in Hcase. destruct Hcase as (Hp & Hs & _).
  exists w', out. split; [exact Hrun |]. split; [exact Hp | exact Hs].
Qed.




(** ** What is carried from one call of [loop] to the next *)

Section Carry.

Variable E : Env.

Lemma sampled_same pin time k : forall u1 u2,
  n_analog u1 = n_analog u2 -> curValue u1 = curValue u2 ->
  sampled_trace E pin time k u1 = sampled_trace E pin time k u2 /\
  curValue (sampled E k u1) = curValue (sampled E k u2).
Proof.
  induction k as [| k IH]; intros u1 u2 Hn Hc; cbn [sampled_trace sampled].
  - split; [reflexivity | exact Hc].
  - destruct (IH (sample_step E u1) (sample_step E u2)) as [IH1 IH2].
    + cbn. now rewrite Hn.
    + cbn. now rewrite Hn, Hc.
    + rewrite Hn, IH1, IH2. split; reflexivity.
Qed.

Lemma gate_accepts_same w1 w2 :
  same_carry w1 w2 -> gate_accepts E w1 = gate_accepts E w2.
Proof.
  intros (Hbt & _ & Hnm & _). unfold gate_accepts, reading.
  now rewrite Hbt, Hnm.
Qed.

Lemma cycle_trace_same w1 w2 :
  same_carry w1 w2 -> cycle_trace E w1 = cycle_trace E w2.
Proof.
  intros (Hbt & Hnb & Hnm & Hna & Hnp & Hnw).
  unfold cycle_trace, average, reading.
  destruct (sampled_same sensorPin SAMPLE_DELAY (Z.to_nat SAMPLES_LENGTH)
              (set_curValue 0 w1) (set_curValue 0 w2) Hna eq_refl) as [Ht Hv].
  now rewrite Ht, Hv, Hnp, Hnw, Hnm.
Qed.

Lemma loop_same w1 w2 :
  same_carry w1 w2 ->
  exists w1' w2' out,
    loop E w1 = Ok tt w1' out /\ loop E w2 = Ok tt w2' out /\
    same_carry w1' w2'.
Proof.
  intros Hsame. pose proof (gate_accepts_same w1 w2 Hsame) as Hgate.
  pose proof Hsame as (Hbt & Hnb & Hnm & Hna & Hnp & Hnw).
  destruct (env_button E (n_button w1)) eqn:Hb1;
    [destruct (gate_accepts E w1) eqn:Hg1 |].
  - assert (env_button E (n_button w2) = true) as Hb2 by now rewrite <- Hnb.
    destruct (loop_accepted E w1 Hb1 Hg1)
      as (w1' & H1 & B1 & C1 & D1 & F1 & G1 & I1).
    destruct (loop_accepted E w2 Hb2 (eq_sym Hgate))
      as (w2' & H2 & B2 & C2 & D2 & F2 & G2 & I2).
    exists w1', w2'. eexists. split; [exact H1 |]. split.
    + rewrite H2.
      rewrite (cycle_trace_same (next_millis (next_millis (next_button w1)))
                 (next_millis (next_millis (next_button w2)))).
      * unfold reading. now rewrite Hnm.
      * unfold same_carry. cbn. now rewrite Hbt, Hnb, Hnm, Hna, Hnp, Hnw.
    + unfold same_carry, reading in *.
      rewrite B1, B2, C1, C2, D1, D2, F1, F2, G1, G2, I1, I2.
      now rewrite Hnb, Hnm, Hna, Hnp, Hnw.
  - assert (env_button E (n_button w2) = true) as Hb2 by now rewrite <- Hnb.
    rewrite (loop_rejected E w1 Hb1 Hg1), (loop_rejected E w2 Hb2 (eq_sym Hgate)).
    do 3 eexists. split; [reflexivity |]. split.
    + unfold reading. now rewrite Hnm.
    + unfold same_carry. cbn. now rewrite Hbt, Hnb, Hnm, Hna, Hnp, Hnw.
  - assert (env_button E (n_button w2) = false) as Hb2 by now rewrite <- Hnb.
    rewrite (loop_idle E w1 Hb1), (loop_idle E w2 Hb2).
    do 3 eexists. split; [reflexivity |]. split; [reflexivity |].
    unfold same_carry. cbn. now rewrite Hbt, Hnb, Hnm, Hna, Hnp, Hnw.
Qed.

Lemma loops_same n : forall w1 w2,
  same_carry w1 w2 ->
  exists w1' w2' out,
    loops E n w1 = Ok tt w1' out /\ loops E n w2 = Ok tt w2' out /\
    same_carry w1' w2'.
Proof.
  induction n as [| n IH]; intros w1 w2 Hsame; cbn [loops].
  - exists w1, w2, []. repeat split; apply Hsame.
  - destruct (loop_same w1 w2 Hsame) as (u1 & u2 & o & H1 & H2 & Hu).
    destruct (IH u1 u2 Hu) as (v1 & v2 & o' & K1 & K2 & Hv).
    exists v1, v2, (o ++ o').
    erewrite bind_run by exact H1. erewrite (bind_run (loop E)) by exact H2.
    rewrite K1, K2. repeat split; apply Hv.
Qed.

End Carry.

(** C7 as amended.  Of the store, only [bounceTime] (with the position
    reached in the answers of the surroundings) bears on what later calls
    of [loop] do: runs from two stores that agree on it emit the same
    events, whatever the function-local statics hold.  One call of [loop]
    writes [bounceTime] exactly when a press is accepted.  What it then
    stores is not a reading the gate compared: after the two readings of
    the gate come the sampling and the delivery, and the reading of the
    timer taken after them, the last event of the call, is the one stored.
    Without an accepted press [bounceTime] and the statics are unchanged,
    and the only pin writes are the two that darken the indicators. *)
Theorem bounceTime_written_after_cycle (E : Env) :
  (forall n w1 w2,
     same_carry w1 w2 ->
     exists w1' w2' out,
       loops E n w1 = Ok tt w1' out /\ loops E n w2 = Ok tt w2' out /\
       same_carry w1' w2') /\
  (forall w,
     exists w' out,
       loop E w = Ok tt w' out /\
       if env_button E (n_button w) && gate_accepts E w
       then posts out = 1%nat /\
            bounceTime w' = to_long (reading E 2 w) /\
            to_ulong (bounceTime w') = reading E 2 w /\
            exists mid,
              out = idle_trace HIGH ++
                    [EvMillis (reading E 0 w); EvMillis (reading E 1 w)] ++
                    mid ++ [EvMillis (reading E 2 w)] /\
              posts mid = 1%nat /\ samples mid = 30%nat
       else posts out = 0%nat /\ samples out = 0%nat /\
            bounceTime w' = bounceTime w /\
            filter is_pin_write out =
              [EvDigitalWrite ledRedPin LOW; EvDigitalWrite ledGreenPin LOW] /\
            curSample w' = curSample w /\ curValue w' = curValue w /\
            twitterMsg w' = twitterMsg w /\ buf w' = buf w).
Proof.
  split; [intros n w1 w2; apply loops_same |].
  intros w.
  destruct (env_button E (n_button w)) eqn:Hb;
    [destruct (gate_accepts E w) eqn:Hg |]; cbn [andb].
  - destruct (loop_accepted E w Hb Hg) as (w' & Hrun & Hbt & _).
    set (w3 := next_millis (next_millis (next_button w))) in *.
    destruct (cycle_trace_counts E w3) as [Hp Hs].
    assert (exists mid, cycle_trace E w3 = mid ++ [EvMillis (reading E 2 w)])
      as (mid & Hmid).
    { unfold cycle_trace. eexists.
      change (reading E 0 w3) with (reading E 2 w).
      rewrite !app_comm_cons, !app_assoc. reflexivity. }
    rewrite Hmid in Hrun, Hp, Hs.
    rewrite posts_app in Hp. rewrite samples_app in Hs.
    cbn in Hp, Hs.
    exists w'. eexists. split; [exact Hrun |].
    rewrite !posts_app. cbn [idle_trace posts filter is_post List.length].
    split.
    { change (posts [EvMillis (reading E 0 w); EvMillis (reading E 1 w)])
        with 0%nat.
      change (posts (idle_trace HIGH)) with 0%nat.
      change (posts [EvMillis (reading E 2 w)]) with 0%nat. lia. }
    split; [exact Hbt |].
    split.
    { rewrite Hbt, to_ulong_to_long. apply to_ulong_id, to_ulong_range. }
    exists mid. split; [reflexivity |]. split; lia.
  - rewrite (loop_rejected E w Hb Hg). do 2 eexists.
    split; [reflexivity |]. repeat split.
  - rewrite (loop_idle E w Hb). do 2 eexists.
    split; [reflexivity |]. repeat split.
Qed.

(** Two stores that differ in every function-local static; the button is
    held, the press read at 1000 is accepted and its cycle ends at 2300,
    the next two calls of [loop] read the timer at 2350 and at 2400. *)
Lemma bounceTime_written_after_cycle_witness :
  let E := mkEnv (fun _ => true)
                 (fun n => nth n [1000; 1000; 2300; 2350; 2350; 2400; 2400] 2400)
                 (fun _ => 100) (fun _ => true) (fun _ => 200) in
  let w2 := set_buf (lit "0.0.0.0")
              (set_twitterMsg (lit "stale")
                 (set_curValue 77 (set_curSample 5 boot))) in
  same_carry boot w2 /\
  exists w1' w2' out,
    loops E 3 boot = Ok tt w1' out /\ loops E 3 w2 = Ok tt w2' out.
Proof.
  intros E w2.
  assert (same_carry boot w2) as H by (repeat split).
  split; [exact H |].
  destruct (proj1 (bounceTime_written_after_cycle E) 3%nat boot w2 H)
    as (w1' & w2' & out & H1 & H2 & _).
  exists w1', w2', out. split; assumption.
Defined.

(** C7 as stated fails on what is stored: the gate compares the timer
    reading 1000 with [bounceTime], the press is accepted, and after the
    cycle [bounceTime] holds 2300, the reading taken at its end, not
    1000. *)
Lemma bounceTime_not_gate_reading :
  let E := mkEnv (fun _ => true) (fun n => nth n [1000; 1000; 2300] 0)
                 (fun _ => 100) (fun _ => true) (fun _ => 200) in
  exists w' out,
    loop E boot = Ok tt w' out /\
    reading E 0 boot = 1000 /\ reading E 1 boot = 1000 /\
    posts out = 1%nat /\
    bounceTime w' = 2300 /\ bounceTime w' <> 1000.
Proof.
  intros E.
  destruct (loop_outcome E boot) as (w' & out & Hrun & Hcase).
  assert (env_button E (n_button boot) && gate_accepts E boot = true) as Hacc
    by reflexivity.
  rewrite Hacc in Hcase. destruct Hcase as (Hp & _ & Hbt & _).
  exists w', out. split; [exact Hrun |].
  split; [reflexivity |]. split; [reflexivity |]. split; [exact Hp |].
  assert (bounceTime w' = 2300) as H by (rewrite Hbt; reflexivity).
  split; [exact H |]. rewrite H. discriminate.
Qed.

(** ** A delivery that succeeds *)

Lemma sampled_trace_values E pin time k : forall u,
  sampled_trace E pin time k u =
  flat_map (fun v => [EvAnalogRead pin v; EvDelay time])
           (sample_values E u (Z.of_nat k)).
Proof.
  induction k as [| k IH]; intros u.
  - reflexivity.
  - rewrite sample_values_succ. cbn [sampled_trace flat_map app].
    now rewrite IH.
Qed.

(** The events of a call of [loop] whose press is accepted, whose thirty
    samples read 100 and whose post is answered with status 200. *)
Lemma loop_sent_hundred E w :
  env_button E (n_button w) = true ->
  gate_accepts E w = true ->
  sample_values E w SAMPLES_LENGTH = repeat 100 30 ->
  env_post E (n_post w) = true ->
  to_int (env_wait E (n_wait w)) = 200 ->
  exists w',
    loop E w =
    Ok tt w'
       (idle_trace HIGH ++
        [EvMillis (reading E 0 w); EvMillis (reading E 1 w)] ++
        EvDigitalWrite ledRedPin HIGH ::
        flat_map (fun v => [EvAnalogRead sensorPin v; EvDelay SAMPLE_DELAY])
                 (repeat 100 30) ++
        send_trace (message_of 100) true 200 ++
        (EvDigitalWrite ledRedPin LOW ::
         blink_trace ledGreenPin LED_DELAY (Z.to_nat BLINK_TIMES)) ++
        [EvMillis (reading E 2 w)]).
Proof.
  intros Hb Hg Hv Hc Hs.
  destruct (loop_accepted E w Hb Hg) as (w' & Hrun & _).
  exists w'. rewrite Hrun. do 3 f_equal.
  unfold cycle_trace.
  assert (average E (next_millis (next_millis (next_button w))) = 100) as ->.
  { unfold average. rewrite sampled_sum by (unfold SAMPLES_LENGTH, INT_MAX; lia).
    change (sample_values E (next_millis (next_millis (next_button w)))
              SAMPLES_LENGTH) with (sample_values E w SAMPLES_LENGTH).
    rewrite Hv. reflexivity. }
  rewrite sampled_trace_values, Z2Nat.id by (unfold SAMPLES_LENGTH; lia).
  change (sample_values E (set_curValue 0 (next_millis (next_millis (next_button w))))
            SAMPLES_LENGTH) with (sample_values E w SAMPLES_LENGTH).
  cbn [n_post n_wait next_millis next_button].
  rewrite Hv, Hc, Hs. reflexivity.
Qed.

(** C8 as amended.  In a call of [loop] whose press is accepted, whose
    thirty samples all read 100 and whose post connects and is answered
    with status 200: the average is 100; one message is handed to the
    Twitter client, the text [Sensor Value: 100.] (the format of the sketch
    ends with a full stop); after the answer the pin writes are the red
    indicator driven LOW and then ten times the green indicator driven HIGH
    and LOW, so the green indicator blinks ten times and the red one is
    not lit again. *)
Theorem scenario_sent_hundred (E : Env) (w : World) :
  env_button E (n_button w) = true ->
  gate_accepts E w = true ->
  sample_values E w SAMPLES_LENGTH = repeat 100 30 ->
  env_post E (n_post w) = true ->
  to_int (env_wait E (n_wait w)) = 200 ->
  exists w' out,
    loop E w = Ok tt w' out /\
    read_values out = repeat 100 30 /\
    Z.quot (sum (read_values out)) SAMPLES_LENGTH = 100 /\
    posted out = [lit "Sensor Value: 100."] /\
    writes ledGreenPin HIGH out = 10%nat /\
    writes ledRedPin HIGH (after_delivery out) = 0%nat /\
    filter is_pin_write (after_delivery out) =
      EvDigitalWrite ledRedPin LOW ::
      List.concat (repeat [EvDigitalWrite ledGreenPin HIGH;
                      EvDigitalWrite ledGreenPin LOW] 10).
Proof.
  intros Hb Hg Hv Hc Hs.
  destruct (loop_sent_hundred E w Hb Hg Hv Hc Hs) as (w' & Hrun).
  exists w'. eexists. split; [exact Hrun |].
  generalize (reading E 0 w), (reading E 1 w), (reading E 2 w).
  intros r0 r1 r2. repeat split; vm_compute; reflexivity.
Qed.

Lemma scenario_sent_hundred_witness :
  let E := mkEnv (fun _ => true) (fun _ => 1000) (fun _ => 100)
                 (fun _ => true) (fun _ => 200) in
  exists w' out,
    loop E boot = Ok tt w' out /\
    posted out = [lit "Sensor Value: 100."] /\
    writes ledGreenPin HIGH out = 10%nat.
Proof.
  intros E.
  destruct (scenario_sent_hundred E boot eq_refl eq_refl eq_refl eq_refl eq_refl)
    as (w' & out & Hrun & _ & _ & Hmsg & Hgreen & _).
  exists w', out. repeat split; assumption.
Defined.

(** C8 as stated fails on the text of the message: with thirty samples
    of 100 and a delivery answered with 200, what is handed to the Twitter
    client is not [Sensor Value: 100]. *)
Lemma scenario_message_counterexample :
  let E := mkEnv (fun _ => true) (fun _ => 1000) (fun _ => 100)
                 (fun _ => true) (fun _ => 200) in
  exists w' out,
    loop E boot = Ok tt w' out /\
    read_values out = repeat 100 30 /\
    In (EvTwitterWait 200) out /\
    posted out = [lit "Sensor Value: 100."] /\
    posted out <> [lit "Sensor Value: 100"].
Proof.
  intros E.
  destruct (loop_sent_hundred E boot eq_refl eq_refl eq_refl eq_refl eq_refl)
    as (w' & Hrun).
  exists w'. eexists. split; [exact Hrun |].
  repeat split; try (vm_compute; reflexivity).
  - vm_compute. auto 100.
  - vm_compute. discriminate.
Qed.

(** * Further properties of the sketch *)

(** ** [blinkLed] *)

Lemma blink_trace_writes pin time k :
  filter is_pin_write (blink_trace pin time k) =
  List.concat (repeat [EvDigitalWrite pin HIGH; EvDigitalWrite pin LOW] k).
Proof.
  induction k as [| k IH]; cbn [blink_trace filter is_pin_write repeat List.concat app].
  - reflexivity.
  - now rewrite IH.
Qed.




Lemma blink_trace_no_work pin time k :
  Forall (fun e => is_work e = false) (blink_trace pin time k).
Proof. induction k; cbn [blink_trace]; repeat constructor; assumption. Qed.



(** ** [getSensorValue]: range and edge cases *)

Lemma sum_between lo hi : forall l : list Z,
  Forall (fun v => lo <= v <= hi) l ->
  lo * Z.of_nat (List.length l) <= sum l <= hi * Z.of_nat (List.length l).
Proof.
  induction 1 as [| s l Hs _ IH]; cbn [sum fold_right List.length].
  - lia.
  - rewrite Nat2Z.inj_succ. unfold sum in IH. lia.
Qed.

(** The truncated quotient of a sum of [N] values between [lo] and [hi]
    lies between [lo] and [hi]. *)
Lemma quot_between S N lo hi :
  0 < N -> lo * N <= S <= hi * N -> lo <= Z.quot S N <= hi.
Proof.
  intros HN HS.
  pose proof (Z.quot_rem' S N) as Hqr.
  destruct (Z_lt_le_dec S 0) as [Hneg | Hpos].
  - pose proof (Z.rem_bound_abs S N ltac:(lia)) as Hr.
    pose proof (Z.rem_nonpos S N ltac:(lia) ltac:(lia)) as Hr'. nia.
  - pose proof (Z.rem_bound_pos S N Hpos HN) as Hr. nia.
Qed.

(** X2.  The average lies within the range of the samples: whatever bounds
    [lo] and [hi] hold for the [N] values read, they hold for the value
    returned. *)
Theorem getSensorValue_within (E : Env) (pin N time lo hi : Z) (w : World) :
  1 <= N <= INT_MAX ->
  Forall (fun v => lo <= v <= hi) (sample_values E w N) ->
  exists v w' out,
    getSensorValue E pin N time w = Ok v w' out /\
    read_values out = sample_values E w N /\
    lo <= v <= hi.
Proof.
  intros HN Hrange.
  rewrite getSensorValue_run by lia. do 3 eexists.
  split; [reflexivity |].
  split.
  { rewrite read_values_sampled, Z2Nat.id by lia. reflexivity. }
  rewrite sampled_sum by lia.
  pose proof (sum_between lo hi _ Hrange) as Hs.
  rewrite sample_values_length, Z2Nat.id in Hs by lia.
  pose proof (quot_between _ N lo hi ltac:(lia) Hs) as Hq.
  pose proof (sum_bounds _ (sample_values_int E N w)) as Hb.
  rewrite sample_values_length, Z2Nat.id in Hb by lia.
  rewrite to_long_id; [exact Hq |].
  unfold in_long. apply quot_within;
    unfold INT_MIN, INT_MAX, LONG_MIN, LONG_MAX in *; nia.
Qed.

Lemma getSensorValue_within_witness :
  let E := mkEnv (fun _ => false) (fun _ => 0)
                 (fun n => if Nat.even n then 0 else 1023)
                 (fun _ => false) (fun _ => 0) in
  exists v w' out,
    getSensorValue E sensorPin SAMPLES_LENGTH SAMPLE_DELAY boot = Ok v w' out /\
    0 <= v <= 1023.
Proof.
  intros E.
  assert (1 <= SAMPLES_LENGTH <= INT_MAX) as HN
    by (unfold SAMPLES_LENGTH, INT_MAX; lia).
  assert (Forall (fun v => 0 <= v <= 1023) (sample_values E boot SAMPLES_LENGTH))
    as Hr by (vm_compute; repeat constructor; discriminate).
  destruct (getSensorValue_within E sensorPin SAMPLES_LENGTH SAMPLE_DELAY
              0 1023 boot HN Hr) as (v & w' & out & Hrun & _ & Hv).
  exists v, w', out. split; assumption.
Defined.

(** X3.  When all the samples read the same value, that value is returned. *)
Theorem getSensorValue_constant (E : Env) (pin N time c : Z) (w : World) :
  1 <= N <= INT_MAX ->
  sample_values E w N = repeat c (Z.to_nat N) ->
  exists w' out, getSensorValue E pin N time w = Ok c w' out.
Proof.
  intros HN Hc.
  assert (Forall (fun v => c <= v <= c) (sample_values E w N)) as Hr.
  { rewrite Hc. apply Forall_forall. intros v Hv.
    apply repeat_spec in Hv. lia. }
  rewrite getSensorValue_run by lia. do 2 eexists. f_equal.
  rewrite sampled_sum by lia.
  pose proof (sum_between c c _ Hr) as Hs.
  rewrite sample_values_length, Z2Nat.id in Hs by lia.
  pose proof (quot_between _ N c c ltac:(lia) Hs) as Hq.
  assert (in_int c) as Hint.
  { pose proof (sample_values_int E N w) as Hall. rewrite Hc in Hall.
    destruct (Z.to_nat N) eqn:Hn; [lia |]. now inversion Hall. }
  replace (Z.quot (sum (sample_values E w N)) N) with c by lia.
  apply to_long_id. unfold in_int, in_long, INT_MIN, INT_MAX, LONG_MIN, LONG_MAX in *.
  lia.
Qed.

(** One sample of 7 gives 7. *)
Lemma getSensorValue_constant_witness :
  let E := mkEnv (fun _ => false) (fun _ => 0) (fun _ => 7)
                 (fun _ => false) (fun _ => 0) in
  exists w' out, getSensorValue E sensorPin 1 SAMPLE_DELAY boot = Ok 7 w' out.
Proof.
  intros E.
  assert (1 <= 1 <= INT_MAX) as HN by (unfold INT_MAX; lia).
  exact (getSensorValue_constant E sensorPin 1 SAMPLE_DELAY 7 boot HN eq_refl).
Defined.

(** X4.  With a negative count the sampling loop does not run: no sample is
    read, no wait is made, and the value returned is 0, the running sum
    having been reset. *)
Theorem getSensorValue_negative_count (E : Env) (pin N time : Z) (w : World) :
  N < 0 ->
  getSensorValue E pin N time w = Ok 0 (set_curValue 0 w) [].
Proof.
  intros HN. rewrite getSensorValue_run by lia.
  replace (Z.to_nat N) with 0%nat by lia. cbn [sampled sampled_trace curValue set_curValue].
  rewrite Z.quot_0_l by lia. reflexivity.
Qed.

Lemma getSensorValue_negative_count_witness :
  getSensorValue (mkEnv (fun _ => false) (fun _ => 0) (fun _ => 500)
                        (fun _ => false) (fun _ => 0))
                 sensorPin (-3) SAMPLE_DELAY boot = Ok 0 (set_curValue 0 boot) [].
Proof.
  apply getSensorValue_negative_count. lia.
Defined.

(** ** [buildTwitterMsg] for any format with one placeholder *)

Lemma format_plain_prefix s : forall r args,
  Forall plain s ->
  format (s ++ r) args = option_map (app s) (format r args).
Proof.
  induction s as [| c s IH]; intros r args Hs; cbn [app].
  - now destruct (format r args).
  - inversion Hs as [| ? ? [Hnul Hpct] Hs']; subst.
    cbn [format]. apply Ascii.eqb_neq in Hnul, Hpct. rewrite Hnul, Hpct.
    rewrite (IH r args Hs'). now destruct (format r args).
Qed.

Lemma format_placeholder pre post junk x :
  Forall plain pre -> Forall plain post ->
  format (pre ++ lit "%ld" ++ post ++ NUL :: junk) [VLong x] =
  Some (pre ++ render_signed x ++ post).
Proof.
  intros Hpre Hpost. rewrite (format_plain_prefix pre _ _ Hpre).
  cbn [lit list_ascii_of_string app format].
  change (Ascii.eqb "%" NUL) with false. change (Ascii.eqb "%" "%") with true.
  change (Ascii.eqb "l" "d") with false. change (Ascii.eqb "l" "%") with false.
  change (Ascii.eqb "l" "l") with true. change (Ascii.eqb "d" "d") with true.
  cbn match. rewrite (format_plain_prefix post _ _ Hpost).
  cbn [format]. change (Ascii.eqb NUL NUL) with true. cbn [option_map].
  now rewrite app_nil_r.
Qed.

(** X5.  [buildTwitterMsg] with any format made of plain text around one [%ld]:
    the array receives the text with the placeholder replaced by the
    rendering of the value when that text is shorter than the 256
    characters of the array; nothing checks the length, and a longer text
    overruns the array. *)
Theorem buildTwitterMsg_capacity (x : Z) (pre post junk : text) (w : World) :
  Forall plain pre -> Forall plain post ->
  let s := pre ++ render_signed x ++ post in
  buildTwitterMsg x (pre ++ lit "%ld" ++ post ++ NUL :: junk) w =
  if (List.length s <? TWITTER_MSG_LENGTH)%nat
  then Ok PtrTwitterMsg
          (set_twitterMsg (s ++ NUL :: skipn (List.length s + 1) (twitterMsg w)) w)
          []
  else Err BufferOverrun.
Proof.
  intros Hpre Hpost s. unfold buildTwitterMsg, sprintf.
  rewrite (format_placeholder pre post junk x Hpre Hpost). fold s.
  unfold bind, get, modify, ret, fail, store_cstr.
  destruct (List.length s <? TWITTER_MSG_LENGTH)%nat eqn:Hfit.
  - apply Nat.ltb_lt in Hfit.
    destruct (Z.of_nat (List.length s) + 1 <=? Z.of_nat TWITTER_MSG_LENGTH) eqn:Hc;
      [reflexivity | apply Z.leb_gt in Hc; lia].
  - apply Nat.ltb_ge in Hfit.
    destruct (Z.of_nat (List.length s) + 1 <=? Z.of_nat TWITTER_MSG_LENGTH) eqn:Hc;
      [apply Z.leb_le in Hc; lia | reflexivity].
Qed.

(** A format of 251 letters before the placeholder overruns the array
    with a five-digit value. *)
Lemma buildTwitterMsg_capacity_witness :
  buildTwitterMsg 12345 (repeat "a"%char 251 ++ lit "%ld" ++ [] ++ [NUL]) boot =
  Err BufferOverrun.
Proof.
  assert (Forall plain (repeat "a"%char 251)) as Hpre.
  { apply Forall_forall. intros c Hc. apply repeat_spec in Hc. subst c.
    split; discriminate. }
  exact (buildTwitterMsg_capacity 12345 (repeat "a"%char 251) [] [] boot
           Hpre (Forall_nil _)).
Defined.

(** ** The static arrays are shared between calls *)

Lemma ipV4ToDottedStyle_run ip w :
  octet (ip0 ip) -> octet (ip1 ip) -> octet (ip2 ip) -> octet (ip3 ip) ->
  ipV4ToDottedStyle ip w =
  Ok PtrBuf
     (set_buf (dotted ip ++ NUL :: skipn (List.length (dotted ip) + 1) (buf w)) w)
     [].
Proof.
  intros H0 H1 H2 H3.
  unfold ipV4ToDottedStyle, sprintf. rewrite format_ipV4Format.
  fold (dotted ip). unfold bind, get, modify, ret, fail.
  rewrite store_cstr_fits; [reflexivity |].
  unfold dotted. rewrite !length_app.
  pose proof (octet_length _ H0). pose proof (octet_length _ H1).
  pose proof (octet_length _ H2). pose proof (octet_length _ H3).
  cbn [lit list_ascii_of_string List.length]. unfold IPV4_DOTTED_LENGTH. lia.
Qed.

(** X6.  [ipV4ToDottedStyle] returns the address of its one static array:
    after a second call the pointer the first call returned reads the
    second address, whatever the lengths of the two texts. *)
Theorem ipV4ToDottedStyle_overwrites (a b : ipv4) (w : World) :
  is_octets a -> is_octets b ->
  exists w2,
    (p1 <- ipV4ToDottedStyle a ;;
     p2 <- ipV4ToDottedStyle b ;;
     ret (p1, p2)) w = Ok (PtrBuf, PtrBuf) w2 [] /\
    deref PtrBuf w2 = dotted b /\
    twitterMsg w2 = twitterMsg w /\ bounceTime w2 = bounceTime w.
Proof.
  intros (A0 & A1 & A2 & A3) (B0 & B1 & B2 & B3).
  eexists. split.
  - erewrite bind_run by (apply ipV4ToDottedStyle_run; assumption).
    erewrite bind_run by (apply ipV4ToDottedStyle_run; assumption).
    reflexivity.
  - cbn [deref buf set_buf twitterMsg bounceTime].
    rewrite (cstr_stored _ _ (dotted_no_nul b)). repeat split.
Qed.

Lemma ipV4ToDottedStyle_overwrites_witness :
  exists w2,
    (p1 <- ipV4ToDottedStyle (mkIp 192 168 100 200) ;;
     p2 <- ipV4ToDottedStyle (mkIp 10 0 0 1) ;;
     ret (p1, p2)) boot = Ok (PtrBuf, PtrBuf) w2 [] /\
    deref PtrBuf w2 = lit "10.0.0.1".
Proof.
  assert (is_octets (mkIp 192 168 100 200)) as Ha
    by (unfold is_octets, octet; cbn; lia).
  assert (is_octets (mkIp 10 0 0 1)) as Hb
    by (unfold is_octets, octet; cbn; lia).
  destruct (ipV4ToDottedStyle_overwrites _ _ boot Ha Hb) as (w2 & Hrun & Htext & _).
  exists w2. split; [exact Hrun | exact Htext].
Defined.

(** ** The serial log of [sendTwitterMsg] *)

(** X7.  [sendTwitterMsg] changes nothing of the store but the positions in the
    answers of the Twitter client.  Its serial log starts with the message
    and the line announcing the attempt and ends with one of three lines
    that tell the outcomes apart; after a status other than 200 that line
    carries the status in decimal, which reads back as the status. *)
Theorem sendTwitterMsg_log (E : Env) (p : cptr) (w : World) :
  let connected := env_post E (n_post w) in
  let status := to_int (env_wait E (n_wait w)) in
  exists sent w' out,
    sendTwitterMsg E p w = Ok sent w' out /\
    serial_text out =
      deref p w ++ CRLF ++ lit "Try connecting to Twitter..." ++ CRLF ++
      (if sent then lit "Message was sent."
       else if connected
            then lit "Message was not sent (failed code: " ++
                 render_signed status ++ lit ")."
            else lit "Twitter connection failed.") ++ CRLF /\
    parse_dec (render_signed status) = status /\
    bounceTime w' = bounceTime w /\ curSample w' = curSample w /\
    curValue w' = curValue w /\ twitterMsg w' = twitterMsg w /\
    buf w' = buf w /\ deref p w' = deref p w.
Proof.
  intros connected status. do 3 eexists.
  split; [apply sendTwitterMsg_run |].
  fold connected status. unfold send_trace.
  split; [| split].
  - destruct connected; [destruct (status =? 200) |];
      cbn [andb app serial_text]; unfold CRLF;
      rewrite <- ?app_assoc; cbn [app]; rewrite ?app_nil_r; reflexivity.
  - apply parse_render.
    pose proof (to_int_range (env_wait E (n_wait w))) as H.
    unfold in_int, INT_MIN, INT_MAX in H. fold status in H. lia.
  - destruct connected; destruct p; repeat split.
Qed.

(** ** Accounting over calls of [loop] *)

Lemma total_delay_app o1 o2 :
  total_delay (o1 ++ o2) = total_delay o1 + total_delay o2.
Proof.
  induction o1 as [| e o1 IH]; [reflexivity |].
  destruct e; cbn [app total_delay]; rewrite IH; lia.
Qed.

Lemma maintains_app o1 o2 :
  maintains (o1 ++ o2) = (maintains o1 + maintains o2)%nat.
Proof. unfold maintains. now rewrite filter_app, length_app. Qed.

Lemma sampled_trace_measures E pin time k : forall u,
  total_delay (sampled_trace E pin time k u) = Z.of_nat k * time /\
  maintains (sampled_trace E pin time k u) = 0%nat.
Proof.
  unfold maintains.
  induction k as [| k IH]; intros u; cbn [sampled_trace total_delay filter is_maintain].
  - split; reflexivity.
  - destruct (IH (sample_step E u)) as [IH1 IH2]. rewrite IH1, IH2. split; [lia | reflexivity].
Qed.

Lemma send_trace_measures msg connected status :
  total_delay (send_trace msg connected status) = 0 /\
  maintains (send_trace msg connected status) = 0%nat.
Proof.
  unfold send_trace. destruct connected; [destruct (status =? 200) |];
    split; reflexivity.
Qed.

Lemma blink_trace_maintains pin time k :
  maintains (blink_trace pin time k) = 0%nat.
Proof.
  unfold maintains. induction k as [| k IH]; [reflexivity |].
  cbn [blink_trace filter is_maintain]. exact IH.
Qed.

Lemma blink_trace_counts_none pin time k :
  posts (blink_trace pin time k) = 0%nat /\
  samples (blink_trace pin time k) = 0%nat.
Proof.
  unfold posts, samples. induction k as [| k [IH1 IH2]]; [split; reflexivity |].
  cbn [blink_trace filter is_post is_sample]. split; assumption.
Qed.

Lemma cycle_trace_measures E w :
  total_delay (cycle_trace E w) =
    SAMPLES_LENGTH * SAMPLE_DELAY + 2 * BLINK_TIMES * LED_DELAY /\
  maintains (cycle_trace E w) = 0%nat.
Proof.
  unfold cycle_trace.
  change (?e :: ?a ++ ?rest) with ([e] ++ a ++ rest).
  rewrite !total_delay_app, !maintains_app.
  destruct (sampled_trace_measures E sensorPin SAMPLE_DELAY
              (Z.to_nat SAMPLES_LENGTH) (set_curValue 0 w)) as [-> ->].
  destruct (send_trace_measures (message_of (average E w))
              (env_post E (n_post w)) (to_int (env_wait E (n_wait w))))
    as [-> ->].
  destruct (env_post E (n_post w) && (to_int (env_wait E (n_wait w)) =? 200));
    split; reflexivity.
Qed.

Section Accounting.

Variable E : Env.

(** One call of [loop]: the lease is maintained once; a press that is
    accepted costs one post, [SAMPLES_LENGTH] samples and the waits of the
    sampling and of the blinking; otherwise nothing of these happens. *)
Lemma loop_accounting w :
  exists w' out,
    loop E w = Ok tt w' out /\
    maintains out = 1%nat /\
    hd_error out = Some EvDhcpMaintain /\
    let a := if env_button E (n_button w) && gate_accepts E w
             then 1%nat else 0%nat in
    posts out = a /\
    samples out = (Z.to_nat SAMPLES_LENGTH * a)%nat /\
    total_delay out =
      (SAMPLES_LENGTH * SAMPLE_DELAY + 2 * BLINK_TIMES * LED_DELAY) * Z.of_nat a.
Proof.
  destruct (env_button E (n_button w)) eqn:Hb;
    [destruct (gate_accepts E w) eqn:Hg |]; cbn [andb].
  - destruct (loop_accepted E w Hb Hg) as (w' & Hrun & _).
    exists w'. eexists. split; [exact Hrun |].
    destruct (cycle_trace_counts E (next_millis (next_millis (next_button w))))
      as [Hp Hs].
    destruct (cycle_trace_measures E (next_millis (next_millis (next_button w))))
      as [Hd Hm].
    rewrite !maintains_app, !posts_app, !samples_app, !total_delay_app,
      Hp, Hs, Hd, Hm.
    repeat split; cbn; lia.
  - rewrite (loop_rejected E w Hb Hg). do 2 eexists.
    split; [reflexivity |]. repeat split.
  - rewrite (loop_idle E w Hb). do 2 eexists.
    split; [reflexivity |]. repeat split.
Qed.

Lemma loops_accounting n : forall w,
  exists w' out,
    loops E n w = Ok tt w' out /\
    maintains out = n /\
    (posts out <= n)%nat /\
    samples out = (Z.to_nat SAMPLES_LENGTH * posts out)%nat /\
    total_delay out =
      (SAMPLES_LENGTH * SAMPLE_DELAY + 2 * BLINK_TIMES * LED_DELAY) *
      Z.of_nat (posts out).
Proof.
  induction n as [| n IH]; intros w; cbn [loops].
  - exists w, []. repeat split. cbn. lia.
  - destruct (loop_accounting w) as (w1 & o1 & H1 & Hm1 & _ & Hp1 & Hs1 & Hd1).
    cbn zeta in Hp1, Hs1, Hd1.
    destruct (IH w1) as (w2 & o2 & H2 & Hm2 & Hp2 & Hs2 & Hd2).
    exists w2, (o1 ++ o2). erewrite bind_run by exact H1. rewrite H2.
    rewrite maintains_app, posts_app, samples_app, total_delay_app.
    rewrite Hm1, Hm2, Hs1, Hs2, Hd1, Hd2, Hp1.
    destruct (env_button E (n_button w) && gate_accepts E w);
      repeat split; lia.
Qed.

End Accounting.

(** X8.  Every call of [loop] starts by maintaining the DHCP lease, whatever
    the button reads; over [n] calls the lease is maintained [n] times. *)
Theorem lease_maintained_every_loop (E : Env) (n : nat) (w : World) :
  (exists w' out,
     loop E w = Ok tt w' out /\ hd_error out = Some EvDhcpMaintain /\
     maintains out = 1%nat) /\
  (exists w' out, loops E n w = Ok tt w' out /\ maintains out = n).
Proof.
  split.
  - destruct (loop_accounting E w) as (w' & out & Hrun & Hm & Hhd & _).
    exists w', out. repeat split; assumption.
  - destruct (loops_accounting E n w) as (w' & out & Hrun & Hm & _).
    exists w', out. split; assumption.
Qed.

(** X9.  No retry and no delivery without sampling: over [n] calls of [loop]
    there are at most [n] posts, and the sensor is read exactly
    [SAMPLES_LENGTH] times per post. *)
Theorem one_post_per_loop (E : Env) (n : nat) (w : World) :
  exists w' out,
    loops E n w = Ok tt w' out /\
    (posts out <= n)%nat /\
    samples out = (30 * posts out)%nat.
Proof.
  destruct (loops_accounting E n w) as (w' & out & Hrun & _ & Hp & Hs & _).
  exists w', out. repeat split; assumption.
Qed.

(** X10.  The blocking waits the sketch asks for: 1200 ms for each accepted
    press (30 waits of 20 ms while sampling, 20 of 30 ms while blinking,
    whether the delivery succeeds or not), none otherwise. *)
Theorem blocking_time (E : Env) (n : nat) (w : World) :
  exists w' out,
    loops E n w = Ok tt w' out /\
    total_delay out = 1200 * Z.of_nat (posts out).
Proof.
  destruct (loops_accounting E n w) as (w' & out & Hrun & _ & _ & _ & Hd).
  exists w', out. split; assumption.
Qed.

(** ** The indicator protocol of one call of [loop] *)

Lemma quiet_filter out :
  Forall (fun e => is_pin_write e = false) out -> filter is_pin_write out = [].
Proof.
  induction 1 as [| e out He _ IH]; [reflexivity |].
  cbn [filter]. now rewrite He.
Qed.

Lemma cycle_trace_pin_writes E w :
  filter is_pin_write (cycle_trace E w) =
  EvDigitalWrite ledRedPin HIGH ::
  (if env_post E (n_post w) && (to_int (env_wait E (n_wait w)) =? 200)
   then EvDigitalWrite ledRedPin LOW ::
        List.concat (repeat [EvDigitalWrite ledGreenPin HIGH;
                             EvDigitalWrite ledGreenPin LOW] 10)
   else List.concat (repeat [EvDigitalWrite ledRedPin HIGH;
                             EvDigitalWrite ledRedPin LOW] 10)).
Proof.
  unfold cycle_trace. cbn [filter is_pin_write]. f_equal.
  rewrite !filter_app.
  rewrite (quiet_filter _ (sampled_trace_quiet E _ _ _ _)).
  rewrite (quiet_filter _ (send_trace_quiet _ _ _)).
  cbn [app filter is_pin_write]. rewrite app_nil_r.
  destruct (env_post E (n_post w) && (to_int (env_wait E (n_wait w)) =? 200));
    cbn [filter is_pin_write]; rewrite blink_trace_writes; reflexivity.
Qed.

(** X11.  The pin writes of one call of [loop] follow one of three patterns.
    Both indicators are driven LOW first.  Without an accepted press
    nothing more is written.  With an accepted press the red indicator is
    driven HIGH; then, if the post connected and was answered with 200,
    red is driven LOW and green blinks ten times; if not, red blinks ten
    times and green is never driven HIGH. *)
Theorem loop_pin_writes (E : Env) (w : World) :
  exists w' out,
    loop E w = Ok tt w' out /\
    filter is_pin_write out =
      [EvDigitalWrite ledRedPin LOW; EvDigitalWrite ledGreenPin LOW] ++
      (if env_button E (n_button w) && gate_accepts E w
       then EvDigitalWrite ledRedPin HIGH ::
            (if env_post E (n_post w) && (to_int (env_wait E (n_wait w)) =? 200)
             then EvDigitalWrite ledRedPin LOW ::
                  List.concat (repeat [EvDigitalWrite ledGreenPin HIGH;
                                       EvDigitalWrite ledGreenPin LOW] 10)
             else List.concat (repeat [EvDigitalWrite ledRedPin HIGH;
                                       EvDigitalWrite ledRedPin LOW] 10))
       else []) /\
    (env_post E (n_post w) && (to_int (env_wait E (n_wait w)) =? 200) = false ->
     writes ledGreenPin HIGH out = 0%nat).
Proof.
  destruct (env_button E (n_button w)) eqn:Hb;
    [destruct (gate_accepts E w) eqn:Hg |]; cbn [andb].
  - destruct (loop_accepted E w Hb Hg) as (w' & Hrun & _).
    exists w'. eexists. split; [exact Hrun |].
    assert (filter is_pin_write
              (idle_trace HIGH ++
               [EvMillis (reading E 0 w); EvMillis (reading E 1 w)] ++
               cycle_trace E (next_millis (next_millis (next_button w)))) =
            [EvDigitalWrite ledRedPin LOW; EvDigitalWrite ledGreenPin LOW] ++
            filter is_pin_write
              (cycle_trace E (next_millis (next_millis (next_button w)))))
      as Hf by (rewrite !filter_app; reflexivity).
    split.
    + rewrite Hf, cycle_trace_pin_writes. reflexivity.
    + intros Hfail. unfold writes.
      assert (forall l, filter (is_write ledGreenPin HIGH) l =
                        filter (is_write ledGreenPin HIGH) (filter is_pin_write l))
        as Hsub.
      { induction l as [| e l IH]; [reflexivity |].
        destruct e; cbn [filter is_pin_write is_write]; try exact IH.
        destruct ((pin =? ledGreenPin) && (level =? HIGH)); cbn [filter is_write];
          now rewrite IH. }
      rewrite Hsub, Hf, cycle_trace_pin_writes.
      cbn [n_post n_wait next_millis next_button]. rewrite Hfail. reflexivity.
  - rewrite (loop_rejected E w Hb Hg). do 2 eexists.
    split; [reflexivity |]. split; [reflexivity |]. intros _. reflexivity.
  - rewrite (loop_idle E w Hb). do 2 eexists.
    split; [reflexivity |]. split; [reflexivity |]. intros _. reflexivity.
Qed.

(** ** Both indicators are dark between calls of [loop] *)

Lemma idle_trace_pins level p : pins_after (idle_trace level) p = dark.
Proof. reflexivity. Qed.

Lemma loop_ends_dark E w p :
  exists w' out, loop E w = Ok tt w' out /\ pins_after out p = dark.
Proof.
  destruct (env_button E (n_button w)) eqn:Hb;
    [destruct (gate_accepts E w) eqn:Hg |].
  - destruct (loop_accepted E w Hb Hg) as (w' & Hrun & _).
    exists w'. eexists. split; [exact Hrun |].
    rewrite !pins_after_app, idle_trace_pins.
    change (pins_after [EvMillis _; EvMillis _] dark) with dark.
    apply cycle_trace_exclusive.
  - rewrite (loop_rejected E w Hb Hg). do 2 eexists. split; [reflexivity |].
    now rewrite pins_after_app, idle_trace_pins.
  - rewrite (loop_idle E w Hb). do 2 eexists. split; [reflexivity |].
    apply idle_trace_pins.
Qed.

(** X12.  Whatever levels the two indicator pins have when [loop] is first
    called, after one or more calls both are LOW. *)
Theorem loops_end_dark (E : Env) (n : nat) (w : World) (p : leds) :
  exists w' out, loops E (S n) w = Ok tt w' out /\ pins_after out p = dark.
Proof.
  revert w p. induction n as [| n IH]; intros w p.
  - destruct (loop_ends_dark E w p) as (w' & out & Hrun & Hp).
    exists w', out. cbn [loops]. erewrite bind_run by exact Hrun.
    cbn [ret]. rewrite app_nil_r. split; [reflexivity | exact Hp].
  - destruct (loop_ends_dark E w p) as (w1 & o1 & H1 & Hp1).
    destruct (IH w1 dark) as (w2 & o2 & H2 & Hp2).
    exists w2, (o1 ++ o2). change (loops E (S (S n)) w) with ((loop E ;; loops E (S n)) w).
    erewrite bind_run by exact H1. rewrite H2.
    split; [reflexivity |]. now rewrite pins_after_app, Hp1.
Qed.

(** ** The busy indicator covers sampling and delivery *)

Lemma busy_guarded_app o1 : forall o2 p,
  busy_guarded (o1 ++ o2) p =
  busy_guarded o1 p && busy_guarded o2 (pins_after o1 p).
Proof.
  induction o1 as [| e o1 IH]; intros o2 p; cbn [app busy_guarded].
  - reflexivity.
  - rewrite IH. cbn [pins_after fold_left]. now rewrite andb_assoc.
Qed.

Lemma busy_guarded_no_work out : forall p,
  Forall (fun e => is_work e = false) out -> busy_guarded out p = true.
Proof.
  induction out as [| e out IH]; intros p H; [reflexivity |].
  inversion H as [| ? ? He Hout]; subst.
  cbn [busy_guarded]. rewrite He. now apply IH.
Qed.

Lemma busy_guarded_quiet out p :
  Forall (fun e => is_pin_write e = false) out ->
  red_lit p && negb (green_lit p) = true ->
  busy_guarded out p = true.
Proof.
  intros Hq Hp. induction Hq as [| e out He _ IH]; [reflexivity |].
  cbn [busy_guarded]. rewrite Hp.
  assert (step_pins p e = p) as -> by (destruct e; try discriminate; reflexivity).
  rewrite IH. now destruct (is_work e).
Qed.

Lemma busy_guarded_prefix out : forall p,
  busy_guarded out p = true ->
  forall pre e suf, out = pre ++ e :: suf -> is_work e = true ->
    red_lit (pins_after pre p) = true /\ green_lit (pins_after pre p) = false.
Proof.
  induction out as [| e0 out IH]; intros p H pre e suf Heq Hw.
  - destruct pre; discriminate.
  - cbn [busy_guarded] in H. apply andb_prop in H as [Hhere Hrest].
    destruct pre as [| e' pre].
    + cbn [app] in Heq. injection Heq as -> _. rewrite Hw in Hhere.
      apply andb_prop in Hhere as [Hr Hg]. cbn [pins_after fold_left].
      split; [exact Hr | now apply negb_true_iff].
    + cbn [app] in Heq. injection Heq as <- Heq.
      cbn [pins_after fold_left]. now apply (IH _ Hrest pre e suf).
Qed.

Lemma cycle_trace_guarded E w : busy_guarded (cycle_trace E w) dark = true.
Proof.
  unfold cycle_trace.
  change (?e :: ?a ++ ?rest) with ([e] ++ a ++ rest).
  rewrite !busy_guarded_app.
  change (pins_after [EvDigitalWrite ledRedPin HIGH] dark) with (mkLeds HIGH LOW).
  destruct (quiet_pins _ (mkLeds HIGH LOW) (sampled_trace_quiet E sensorPin
              SAMPLE_DELAY (Z.to_nat SAMPLES_LENGTH) (set_curValue 0 w)))
    as [-> _].
  rewrite (busy_guarded_quiet _ (mkLeds HIGH LOW)
             (sampled_trace_quiet E _ _ _ _) eq_refl).
  rewrite (busy_guarded_quiet _ (mkLeds HIGH LOW)
             (send_trace_quiet _ _ _) eq_refl).
  rewrite (busy_guarded_no_work [EvMillis _]) by repeat constructor.
  rewrite (busy_guarded_no_work [EvDigitalWrite _ _]) by repeat constructor.
  rewrite busy_guarded_no_work; [reflexivity |].
  destruct (env_post E (n_post w) && (to_int (env_wait E (n_wait w)) =? 200));
    [constructor; [reflexivity |] |]; apply blink_trace_no_work.
Qed.

Lemma loops_guarded E n : forall w p,
  exists w' out, loops E n w = Ok tt w' out /\ busy_guarded out p = true.
Proof.
  induction n as [| n IH]; intros w p; cbn [loops].
  - exists w, []. split; reflexivity.
  - destruct (loop_ends_dark E w p) as (w1 & o1 & H1 & Hp1).
    destruct (IH w1 dark) as (w2 & o2 & H2 & Hg2).
    exists w2, (o1 ++ o2). erewrite bind_run by exact H1. rewrite H2.
    split; [reflexivity |]. rewrite busy_guarded_app, Hp1, Hg2, andb_true_r.
    destruct (env_button E (n_button w)) eqn:Hb;
      [destruct (gate_accepts E w) eqn:Hg |].
    + destruct (loop_accepted E w Hb Hg) as (w1' & Hrun & _).
      assert (o1 = idle_trace HIGH ++
                   [EvMillis (reading E 0 w); EvMillis (reading E 1 w)] ++
                   cycle_trace E (next_millis (next_millis (next_button w))))
        as -> by congruence.
      rewrite !busy_guarded_app, ?pins_after_app, idle_trace_pins.
      rewrite (busy_guarded_no_work (idle_trace HIGH)) by repeat constructor.
      change (pins_after [EvMillis _; EvMillis _] dark) with dark.
      rewrite cycle_trace_guarded. reflexivity.
    + rewrite (loop_rejected E w Hb Hg) in H1. injection H1 as _ <-.
      apply busy_guarded_no_work. repeat constructor.
    + rewrite (loop_idle E w Hb) in H1. injection H1 as _ <-.
      apply busy_guarded_no_work. repeat constructor.
Qed.

(** X13.  Over any number of calls of [loop], from any store and any levels of
    the indicator pins: whenever the sensor is read, a message is posted or
    the answer of the service is awaited, the red indicator is lit and the
    green one is dark. *)
Theorem busy_indicator_covers_work (E : Env) (n : nat) (w : World) (p : leds) :
  exists w' out,
    loops E n w = Ok tt w' out /\
    forall pre e suf,
      out = pre ++ e :: suf -> is_work e = true ->
      red_lit (pins_after pre p) = true /\ green_lit (pins_after pre p) = false.
Proof.
  destruct (loops_guarded E n w p) as (w' & out & Hrun & Hg).
  exists w', out. split; [exact Hrun |].
  apply busy_guarded_prefix, Hg.
Qed.

(** ** What an accepted press posts *)

Lemma read_values_app o1 o2 :
  read_values (o1 ++ o2) = read_values o1 ++ read_values o2.
Proof.
  induction o1 as [| e o1 IH]; [reflexivity |].
  destruct e; cbn [app read_values]; rewrite IH; reflexivity.
Qed.

Lemma posted_app o1 o2 : posted (o1 ++ o2) = posted o1 ++ posted o2.
Proof.
  induction o1 as [| e o1 IH]; [reflexivity |].
  destruct e; cbn [app posted]; rewrite IH; reflexivity.
Qed.

Lemma posted_sampled E pin time k : forall u,
  posted (sampled_trace E pin time k u) = [].
Proof. induction k as [| k IH]; intros u; [reflexivity | apply IH]. Qed.

Lemma blink_trace_silent pin time k :
  read_values (blink_trace pin time k) = [] /\
  posted (blink_trace pin time k) = [].
Proof. induction k as [| k IH]; [split; reflexivity | exact IH]. Qed.

Lemma send_trace_posted msg connected status :
  read_values (send_trace msg connected status) = [] /\
  posted (send_trace msg connected status) = [msg].
Proof.
  unfold send_trace. destruct connected; [destruct (status =? 200) |];
    split; reflexivity.
Qed.

Lemma cycle_trace_message E w :
  read_values (cycle_trace E w) = sample_values E w SAMPLES_LENGTH /\
  posted (cycle_trace E w) = [message_of (average E w)].
Proof.
  unfold cycle_trace.
  change (?e :: ?a ++ ?rest) with ([e] ++ a ++ rest).
  rewrite !read_values_app, !posted_app.
  rewrite read_values_sampled, posted_sampled.
  destruct (send_trace_posted (message_of (average E w))
              (env_post E (n_post w)) (to_int (env_wait E (n_wait w))))
    as [-> ->].
  destruct (blink_trace_silent ledGreenPin LED_DELAY (Z.to_nat BLINK_TIMES))
    as [Hg1 Hg2].
  destruct (blink_trace_silent ledRedPin LED_DELAY (Z.to_nat BLINK_TIMES))
    as [Hr1 Hr2].
  destruct (env_post E (n_post w) && (to_int (env_wait E (n_wait w)) =? 200));
    cbn [app read_values posted]; rewrite ?Hg1, ?Hg2, ?Hr1, ?Hr2;
    cbn [app]; rewrite ?app_nil_r; split; reflexivity.
Qed.

(** X14.  The message of an accepted press carries the mean of the samples of
    that press: the one text handed to the Twitter client is
    [Sensor Value: ], the decimal notation of the truncated mean of the
    thirty values read in this call, and a full stop; the mean lies in the
    range of [int]. *)
Theorem posted_message_is_mean (E : Env) (w : World) :
  env_button E (n_button w) = true ->
  gate_accepts E w = true ->
  exists w' out,
    loop E w = Ok tt w' out /\
    List.length (read_values out) = 30%nat /\
    let mean := Z.quot (sum (read_values out)) 30 in
    posted out = [lit "Sensor Value: " ++ render_signed mean ++ lit "."] /\
    parse_dec (render_signed mean) = mean /\
    in_int mean.
Proof.
  intros Hb Hg.
  destruct (loop_accepted E w Hb Hg) as (w' & Hrun & _).
  exists w'. eexists. split; [exact Hrun |].
  set (w3 := next_millis (next_millis (next_button w))).
  destruct (cycle_trace_message E w3) as [Hv Hm].
  rewrite !read_values_app, !posted_app, Hv, Hm.
  cbn [idle_trace read_values posted app].
  change (sample_values E w3 SAMPLES_LENGTH) with (sample_values E w SAMPLES_LENGTH).
  assert (0 <= SAMPLES_LENGTH <= INT_MAX) as HN
    by (unfold SAMPLES_LENGTH, INT_MAX; lia).
  pose proof (sum_between INT_MIN INT_MAX _ (sample_values_int E SAMPLES_LENGTH w))
    as Hs.
  rewrite sample_values_length in Hs.
  pose proof (quot_between _ SAMPLES_LENGTH INT_MIN INT_MAX
                ltac:(unfold SAMPLES_LENGTH; lia) Hs) as Hq.
  assert (average E w3 = Z.quot (sum (sample_values E w SAMPLES_LENGTH)) 30) as Havg.
  { unfold average. rewrite sampled_sum by exact HN.
    change (sample_values E w3 SAMPLES_LENGTH) with (sample_values E w SAMPLES_LENGTH).
    apply to_long_id.
    unfold in_long, INT_MIN, INT_MAX, LONG_MIN, LONG_MAX, SAMPLES_LENGTH in *. lia. }
  split; [apply sample_values_length |].
  cbn zeta. rewrite Havg. split; [reflexivity |].
  change (Z.quot ?s SAMPLES_LENGTH) with (Z.quot s 30) in Hq.
  split; [| exact Hq].
  apply parse_render. unfold INT_MIN, INT_MAX in Hq. lia.
Qed.

Lemma posted_message_is_mean_witness :
  let E := mkEnv (fun _ => true) (fun _ => 5000)
                 (fun n => Z.of_nat n) (fun _ => false) (fun _ => 0) in
  exists w' out,
    loop E boot = Ok tt w' out /\
    List.length (read_values out) = 30%nat /\
    in_int (Z.quot (sum (read_values out)) 30).
Proof.
  intros E.
  destruct (posted_message_is_mean E boot eq_refl eq_refl)
    as (w' & out & Hrun & Hlen & _ & _ & Hint).
  exists w', out. split; [exact Hrun |]. split; [exact Hlen | exact Hint].
Defined.

(** ** The bounce window after power-up *)

(** X15.  [bounceTime] starts at 0: as long as it is 0, a press during
    which the timer reads at most [BOUNCE_DURATION] at the second reading
    of the gate, and not 0 at the first unless also at the second, is
    ignored; nothing is sampled or posted and [bounceTime] stays 0. *)
Theorem press_after_power_up_ignored (E : Env) (w : World) :
  bounceTime w = 0 ->
  env_button E (n_button w) = true ->
  reading E 1 w <= BOUNCE_DURATION ->
  (reading E 0 w = 0 -> reading E 1 w = 0) ->
  exists w' out,
    loop E w = Ok tt w' out /\
    posts out = 0%nat /\ samples out = 0%nat /\ bounceTime w' = 0.
Proof.
  intros Hbt Hb Ht Hsame.
  assert (forall k, elapsed (reading E k w) (to_ulong (bounceTime w)) =
                    reading E k w) as Hel.
  { intros k. rewrite Hbt. change (to_ulong 0) with 0. unfold elapsed.
    rewrite Z.sub_0_r.
    pose proof (to_ulong_range (env_millis E (k + n_millis w))) as Hr.
    unfold in_ulong, ULONG_MOD in Hr. apply Z.mod_small. exact Hr. }
  rewrite (press_within_window_rejected E w Hb).
  - do 2 eexists. split; [reflexivity |]. repeat split. exact Hbt.
  - now rewrite Hel.
  - now rewrite !Hel.
Qed.

(** A press at power-up, the timer reading 150 and then 151. *)
Lemma press_after_power_up_ignored_witness :
  let E := mkEnv (fun _ => true) (fun n => nth n [150; 151] 0) (fun _ => 0)
                 (fun _ => true) (fun _ => 200) in
  exists w' out, loop E boot = Ok tt w' out /\ posts out = 0%nat.
Proof.
  intros E.
  assert (reading E 1 boot <= BOUNCE_DURATION) as Ht
    by (vm_compute; discriminate).
  assert (reading E 0 boot = 0 -> reading E 1 boot = 0) as Hsame
    by (intros H; vm_compute in H; discriminate H).
  destruct (press_after_power_up_ignored E boot eq_refl eq_refl Ht Hsame)
    as (w' & out & Hrun & Hp & _).
  exists w', out. split; assumption.
Defined.

(** The torn read: the stored reading is 1000, the timer still reads 1000
    at the first evaluation and 1001 at the second. *)
Lemma debounce_gate_torn_read_witness :
  let E := mkEnv (fun _ => true) (fun n => nth n [1000; 1001] 0)
                 (fun _ => 0) (fun _ => true) (fun _ => 200) in
  exists w' out,
    debounce_gate E (set_bounceTime (to_long 1000) boot) = Ok true w' out.
Proof.
  intros E.
  assert (in_ulong 1000) as H by (unfold in_ulong, ULONG_MOD; lia).
  assert (1000 + 1 < 2 ^ 32) as H' by lia.
  exact (debounce_gate_torn_read E (set_bounceTime (to_long 1000) boot) 1000
           H H' eq_refl eq_refl eq_refl).
Defined.

(** ** [setup] *)

Lemma to_byte_octet z : octet (to_byte z).
Proof.
  unfold octet, to_byte. pose proof (Z.mod_pos_bound z 256 ltac:(lia)). lia.
Qed.

Lemma bytes_octets a : is_octets (bytes a).
Proof. repeat split; apply to_byte_octet. Qed.

Lemma sbind_run {A B} (m : SM A) (k : A -> SM B) w a w1 o1 :
  m w = SOk a w1 o1 ->
  sbind m k w =
  match k a w1 with
  | SOk b w2 o2 => SOk b w2 (o1 ++ o2)
  | SErr f => SErr f
  end.
Proof. intros H. unfold sbind. now rewrite H. Qed.

Lemma println_dotted_run a w :
  is_octets a ->
  println_dotted a w =
  SOk tt
      (set_buf (dotted a ++ NUL :: skipn (List.length (dotted a) + 1) (buf w)) w)
      [BeSketch (EvSerialPrintln (dotted a))].
Proof.
  intros (H0 & H1 & H2 & H3). unfold println_dotted.
  erewrite sbind_run
    by (unfold lift; rewrite ipV4ToDottedStyle_run by assumption; reflexivity).
  unfold sbind, lift, get, serial_println, emit.
  cbn [deref buf set_buf map app].
  now rewrite (cstr_stored _ _ (dotted_no_nul a)).
Qed.

Lemma setup_run_carry (L : Lease) (w : World) :
  exists w' out, setup L w = SOk tt w' out /\ same_carry w w'.
Proof.
  unfold setup, sdebug, debugMode.
  do 11 (erewrite sbind_run by reflexivity).
  erewrite sbind_run by (apply println_dotted_run, bytes_octets).
  erewrite sbind_run by reflexivity.
  erewrite sbind_run by (apply println_dotted_run, bytes_octets).
  erewrite sbind_run by reflexivity.
  rewrite println_dotted_run by apply bytes_octets.
  do 2 eexists. split; [reflexivity |]. repeat split.
Qed.

(** X17.  Once the lease is granted, [setup] reports the three addresses on the
    serial line, each in dotted decimal on its own line, although all three
    are rendered into the same array one after the other, whatever their
    lengths; the array is left holding the DNS address.  Before that it
    sets the modes of the four pins and opens the serial line, and it asks
    for the lease with the hardware address of the sketch.  Nothing else of
    the store changes. *)
Theorem setup_reports_lease (L : Lease) (w : World) :
  exists w' out,
    setup L w = SOk tt w' out /\
    serial_text (sketch_events out) =
      lit "Attempting to obtain a DHCP lease ..." ++ CRLF ++
      lit "A DHCP lease has been obtained." ++ CRLF ++
      lit "My IP address is: " ++ dotted (bytes (lease_ip L)) ++ CRLF ++
      lit "Gateway IP address is: " ++ dotted (bytes (lease_gateway L)) ++ CRLF ++
      lit "DNS IP address is: " ++ dotted (bytes (lease_dns L)) ++ CRLF /\
    filter (fun e => match e with BeSketch _ => false | _ => true end) out =
      [BePinMode buttonPin INPUT; BePinMode sensorPin INPUT;
       BePinMode ledGreenPin OUTPUT; BePinMode ledRedPin OUTPUT;
       BeSerialBegin 9600; BeDhcpBegin mac;
       BeDhcpIpAddress; BeDhcpGatewayIpAddress; BeDhcpDnsIpAddress] /\
    deref PtrBuf w' = dotted (bytes (lease_dns L)) /\
    same_carry w w' /\
    curSample w' = curSample w /\ curValue w' = curValue w /\
    twitterMsg w' = twitterMsg w.
Proof.
  unfold setup, sdebug, debugMode.
  do 4 (erewrite sbind_run by reflexivity).
  erewrite sbind_run by reflexivity.
  erewrite sbind_run by reflexivity.
  do 3 (erewrite sbind_run by reflexivity).
  do 2 (erewrite sbind_run by reflexivity).
  erewrite sbind_run by (apply println_dotted_run, bytes_octets).
  erewrite sbind_run by reflexivity.
  erewrite sbind_run by (apply println_dotted_run, bytes_octets).
  erewrite sbind_run by reflexivity.
  rewrite println_dotted_run by apply bytes_octets.
  generalize (dotted (bytes (lease_ip L))), (dotted_no_nul (bytes (lease_ip L))).
  generalize (dotted (bytes (lease_gateway L))),
             (dotted_no_nul (bytes (lease_gateway L))).
  generalize (dotted (bytes (lease_dns L))), (dotted_no_nul (bytes (lease_dns L))).
  intros d Hd g Hg i Hi.
  do 2 eexists. split; [reflexivity |].
  cbn [app map sketch_events serial_text filter deref buf set_buf].
  unfold CRLF. rewrite <- ?app_assoc. cbn [app].
  rewrite (cstr_stored _ _ Hd).
  repeat split.
Qed.

(** X18.  Running the sketch: after [setup], the calls of [loop] emit the
    events they would emit had [setup] not run; what [setup] leaves in
    its array does not bear on them. *)
Theorem setup_then_loops (E : Env) (L : Lease) (n : nat) (w : World) :
  exists o0 w1 w2 out,
    run E L n w = SOk tt w1 (o0 ++ map BeSketch out) /\
    (exists w0, setup L w = SOk tt w0 o0) /\
    loops E n w = Ok tt w2 out /\
    same_carry w2 w1.
Proof.
  destruct (setup_run_carry L w) as (w0 & o0 & Hsetup & Hcarry).
  destruct (loops_same E n w w0 Hcarry) as (w2 & w1 & out & H2 & H1 & Hsame).
  exists o0, w1, w2, out. split; [| split; [eauto | split; assumption]].
  unfold run. erewrite sbind_run by exact Hsetup.
  unfold lift. rewrite H1. reflexivity.
Qed.

(** ** The button is read as a level *)

(** X19.  [loop] looks at the level of the button, not at its edges: a button
    still read HIGH in the call after an accepted press starts another
    cycle as soon as the timer is more than [BOUNCE_DURATION] past the
    reading stored at the end of the first. *)
Theorem held_button_retriggers
    (E : Env) (w0 w1 : World) (out1 : trace) (te t2 : Z) :
  env_button E (n_button w0) = true ->
  gate_accepts E w0 = true ->
  reading E 2 w0 = te ->
  loop E w0 = Ok tt w1 out1 ->
  env_button E (n_button w1) = true ->
  reading E 0 w1 = t2 -> reading E 1 w1 = t2 ->
  BOUNCE_DURATION < elapsed t2 te ->
  exists w2 out2,
    loop E w1 = Ok tt w2 out2 /\
    posts out2 = 1%nat /\ posts (out1 ++ out2) = 2%nat /\
    samples (out1 ++ out2) = 60%nat.
Proof.
  intros Hb0 Hg0 Hte Hrun1 Hb1 H0 H1 Hpast.
  destruct (loop_outcome E w0) as (w1' & o1 & Hr & Hcase).
  rewrite Hrun1 in Hr. injection Hr as <- <-.
  rewrite Hb0, Hg0 in Hcase. cbn [andb] in Hcase.
  destruct Hcase as (Hp1 & Hs1 & Hbt & _).
  assert (gate_accepts E w1 = true) as Hg1.
  { unfold gate_accepts. rewrite H0, H1, gate_value_elapsed, Hbt, Hte.
    rewrite to_ulong_to_long.
    rewrite (to_ulong_id te) by (subst te; apply to_ulong_range).
    rewrite Z.gtb_ltb. now apply Z.ltb_lt. }
  destruct (loop_outcome E w1) as (w2 & out2 & Hrun2 & Hcase2).
  rewrite Hb1, Hg1 in Hcase2. cbn [andb] in Hcase2.
  destruct Hcase2 as (Hp2 & Hs2 & _).
  exists w2, out2. rewrite posts_app, samples_app, Hp1, Hp2, Hs1, Hs2.
  repeat split. exact Hrun2.
Qed.

Lemma held_button_retriggers_witness :
  let E := mkEnv (fun _ => true)
                 (fun n => nth n [1000; 1000; 2300; 2501; 2501; 3800] 0)
                 (fun _ => 512) (fun _ => true) (fun _ => 200) in
  exists w1 out1 w2 out2,
    loop E boot = Ok tt w1 out1 /\ loop E w1 = Ok tt w2 out2 /\
    posts (out1 ++ out2) = 2%nat.
Proof.
  intros E.
  destruct (loop_accepted E boot eq_refl eq_refl)
    as (w1 & H1 & _ & _ & Hnm & _).
  assert (reading E 0 w1 = 2501) as Hr0
    by (unfold reading; rewrite Hnm; reflexivity).
  assert (reading E 1 w1 = 2501) as Hr1
    by (unfold reading; rewrite Hnm; reflexivity).
  assert (BOUNCE_DURATION < elapsed 2501 2300) as Hpast by reflexivity.
  destruct (held_button_retriggers E boot w1 _ 2300 2501 eq_refl eq_refl
              eq_refl H1 eq_refl Hr0 Hr1 Hpast)
    as (w2 & out2 & H2 & _ & Hp & _).
  exists w1. eexists. exists w2, out2.
  split; [exact H1 |]. split; [exact H2 | exact Hp].
Defined.

(** ** The message array between presses *)

Lemma cycle_store E w :
  exists w',
    cycle E w = Ok tt w' (cycle_trace E w) /\
    deref PtrTwitterMsg w' = message_of (average E w) /\
    buf w' = buf w /\
    (List.length (twitterMsg w) = TWITTER_MSG_LENGTH ->
     List.length (twitterMsg w') = TWITTER_MSG_LENGTH).
Proof.
  unfold cycle, cycle_trace.
  pose proof (sampled_frame E (Z.to_nat SAMPLES_LENGTH) (set_curValue 0 w))
    as (_ & F2 & F3 & _ & F5 & _ & F7 & F8).
  cbn [twitterMsg buf n_millis n_post n_wait set_curValue] in F2, F3, F5, F7, F8.
  erewrite bind_run by reflexivity.
  erewrite bind_run by apply getSensorValue_samples.
  generalize dependent (sampled E (Z.to_nat SAMPLES_LENGTH) (set_curValue 0 w)).
  generalize (sampled_trace E sensorPin SAMPLE_DELAY (Z.to_nat SAMPLES_LENGTH)
                (set_curValue 0 w)).
  generalize (average E w).
  intros v tr w1 F2 F3 F5 F7 F8.
  unfold reading. cbn [Nat.add].
  erewrite bind_run by apply buildTwitterMsg_run.
  erewrite bind_run by apply sendTwitterMsg_run.
  cbn [deref twitterMsg set_twitterMsg n_post n_wait].
  rewrite (cstr_stored _ _ (message_of_no_nul _)), F7, F8.
  assert (List.length (twitterMsg w) = TWITTER_MSG_LENGTH ->
          List.length (message_of v ++ NUL ::
                         skipn (List.length (message_of v) + 1) (twitterMsg w1)) =
          TWITTER_MSG_LENGTH) as Hlen.
  { intros Hcap. rewrite F2. eapply store_cstr_length; [exact Hcap |].
    apply store_cstr_fits. pose proof (message_of_length v).
    unfold TWITTER_MSG_LENGTH. lia. }
  pose proof (cstr_stored (message_of v)
                (skipn (List.length (message_of v) + 1) (twitterMsg w1))
                (message_of_no_nul v)) as Hstr.
  revert Hlen Hstr.
  generalize (message_of v ++ NUL :: skipn (List.length (message_of v) + 1)
                                          (twitterMsg w1)).
  intros stored Hlen Hstr.
  destruct (env_post E (n_post w)) eqn:Hc;
    [destruct (to_int (env_wait E (n_wait w)) =? 200) eqn:Hs |];
    cbn [andb].
  - erewrite (bind_run (_ ;; blinkLed _ _ _)).
    2:{ erewrite bind_run by reflexivity. rewrite blinkLed_run. reflexivity. }
    unfold bind, millis, modify.
    cbn [n_millis next_wait next_post set_twitterMsg]. rewrite F5.
    eexists. split.
    { cbn [app]. rewrite <- ?app_assoc. cbn [app]. reflexivity. }
    cbn [deref twitterMsg buf set_bounceTime next_millis next_wait next_post
         set_twitterMsg].
    split; [exact Hstr |]. split; [exact F3 | exact Hlen].
  - erewrite (bind_run (blinkLed _ _ _)) by apply blinkLed_run.
    unfold bind, millis, modify.
    cbn [n_millis next_wait next_post set_twitterMsg]. rewrite F5.
    eexists. split.
    { cbn [app]. rewrite <- ?app_assoc. cbn [app]. reflexivity. }
    cbn [deref twitterMsg buf set_bounceTime next_millis next_wait next_post
         set_twitterMsg].
    split; [exact Hstr |]. split; [exact F3 | exact Hlen].
  - erewrite (bind_run (blinkLed _ _ _)) by apply blinkLed_run.
    unfold bind, millis, modify.
    cbn [n_millis next_wait next_post set_twitterMsg]. rewrite F5.
    eexists. split.
    { cbn [app]. rewrite <- ?app_assoc. cbn [app]. reflexivity. }
    cbn [deref twitterMsg buf set_bounceTime next_millis next_wait next_post
         set_twitterMsg].
    split; [exact Hstr |]. split; [exact F3 | exact Hlen].
Qed.

(** X20.  [loop] never touches the array of [ipV4ToDottedStyle] and never
    changes the size of the message array.  After a call with an accepted
    press the message array holds the message that was posted; a later
    call without an accepted press leaves it there. *)
Theorem message_array_kept (E : Env) (w : World) :
  exists w' out,
    loop E w = Ok tt w' out /\
    buf w' = buf w /\
    (List.length (twitterMsg w) = TWITTER_MSG_LENGTH ->
     List.length (twitterMsg w') = TWITTER_MSG_LENGTH) /\
    (if env_button E (n_button w) && gate_accepts E w
     then posted out = [deref PtrTwitterMsg w']
     else posted out = [] /\ twitterMsg w' = twitterMsg w).
Proof.
  destruct (env_button E (n_button w)) eqn:Hb;
    [destruct (gate_accepts E w) eqn:Hg |]; cbn [andb].
  - set (w3 := next_millis (next_millis (next_button w))).
    destruct (cycle_store E w3) as (w' & Hrun & Hmsg & Hbuf & Hlen).
    exists w'. eexists. split.
    + rewrite (loop_pressed E w Hb).
      erewrite bind_run by apply debounce_gate_run.
      change (gate_value _ _ _) with (gate_accepts E w). rewrite Hg.
      fold w3. rewrite Hrun. reflexivity.
    + split; [exact Hbuf |]. split; [exact Hlen |].
      rewrite !posted_app. destruct (cycle_trace_message E w3) as [_ ->].
      rewrite Hmsg. reflexivity.
  - rewrite (loop_rejected E w Hb Hg). do 2 eexists.
    split; [reflexivity |]. repeat split. intros H; exact H.
  - rewrite (loop_idle E w Hb). do 2 eexists.
    split; [reflexivity |]. repeat split. intros H; exact H.
Qed.
